(** * playwright-go: the connection / channel protocol engine

    A shallow embedding of [connection.go] and of [channel.innerSend],
    with the properties of the value codec, the callback table, the id
    counter, the dispatcher and the connection life cycle.

    Conventions of the embedding.
    - A pure Go function that can panic returns [option]: [None] is the
      run-time panic (failed type assertion, nil dereference). A method
      of the connection is a computation in the monad [M] of state and
      panics.
    - A Go [map] is a [gmap]; a nil map and an empty map read alike and
      are both [∅].
    - [int] is the 64-bit signed integer; the one arithmetic operation of
      the engine, [c.lastID++], has its wrap-around written out.
    - Calls that leave the engine (transport, hooks, event emitter, object
      factory, tracing sink) are appended to the connection's [trace]. *)

From stdpp Require Import gmap strings list fin_maps sorting.
From Stdlib Require Import ZArith Ascii.

Set Warnings "-register-all".
#[local] Open Scope string_scope.
#[local] Open Scope list_scope.
#[local] Open Scope Z_scope.

(** ** Dynamic values *)

(** Address of a heap-allocated [channel]; [*channel] values are compared
    by address. *)
Definition loc := positive.

(** The dynamic types an [interface{}] carries through the codec. *)
Inductive value :=
| VNil                                  (* nil interface *)
| VBool (b : bool)
| VInt (z : Z)
| VStr (s : string)
| VChan (p : loc)                       (* *channel *)
| VList (l : list value)                (* []interface{} *)
| VMap (m : gmap string value)          (* map[string]interface{} *)
| VStrMap (m : gmap string string).     (* map[string]string *)

(** [type channel struct { eventEmitter; guid string; connection; object }]:
    the codec reads [guid] only. *)
Record channel := { chan_guid : string }.

(** Modelled from the spec: the declaration of [channelOwner] is not in
    the sources at hand. A Channel Owner holds its identifier, its
    declared type tag and the one Channel that speaks for it; these are
    the fields [connection.go] reads ([objectType], [channel]). *)
Record channelOwner := {
  objectType : string;
  owner_guid : string;
  owner_channel : loc
}.

Abbreviation heap := (gmap loc channel).
Abbreviation directory := (gmap string channelOwner).

(** All entries of a map of computations, or a panic when one of them
    panicked. *)
Definition map_sequence {A} (m : gmap string (option A)) : option (gmap string A) :=
  map_fold (λ k o acc, m' ← acc; a ← o; Some (<[k:=a]> m')) (Some ∅) m.

Fixpoint value_size (v : value) : nat :=
  match v with
  | VList l => S (foldr (λ x n, (value_size x + n)%nat) 0%nat l)
  | VMap m => S (map_fold (λ _ x n, (value_size x + n)%nat) 0%nat m)
  | _ => 1%nat
  end.

(** ** Value codec *)

(** [connection.replaceChannelsWithGuids]. *)
Fixpoint replaceChannelsWithGuids (h : heap) (payload : value) : option value :=
  match payload with
  | VNil => Some VNil
  | VChan p => ch ← h !! p; Some (VStrMap {[ "guid" := chan_guid ch ]})
  | VList l => VList <$> mapM (replaceChannelsWithGuids h) l
  | VMap m => VMap <$> map_sequence (replaceChannelsWithGuids h <$> m)
  | VStrMap m => Some (VMap (VStr <$> m))
  | _ => Some payload
  end.

(** [connection.replaceGuidsWithChannels]. The type assertions
    [payload.(map[string]interface{})] and [guid.(string)] panic on any
    other dynamic type; so does [payload.([]interface{})] on a slice of
    another type, of which [value] has none. The Go function overwrites
    the slice or map it walks and returns it; its payloads come from the
    JSON decoder and share no part, so the value returned says all it
    did. *)
Fixpoint replaceGuidsWithChannels (objects : directory) (payload : value) : option value :=
  match payload with
  | VNil => Some VNil
  | VList l => VList <$> mapM (replaceGuidsWithChannels objects) l
  | VMap m =>
      let walk := VMap <$> map_sequence (replaceGuidsWithChannels objects <$> m) in
      match m !! "guid" with
      | Some (VStr guid) =>
          match objects !! guid with
          | Some owner => Some (VChan (owner_channel owner))
          | None => walk
          end
      | Some _ => None
      | None => walk
      end
  | VStrMap _ => None
  | _ => Some payload
  end.






(** ** Errors, results, callbacks *)

Inductive error :=
| ErrNew (msg : string)                     (* errors.New(msg) *)
| ErrWrap (msg : string) (cause : error)    (* fmt.Errorf(msg + ": %w", cause) *)
| ErrRemote (name message stack : string).  (* an error reported by the driver *)

(** Modelled from the spec: [msg.Error.Error], the driver's
    [{name, message, stack}]; its declaration is not in the sources at
    hand. *)
Record remoteError := {
  err_name : string;
  err_message : string;
  err_stack : string
}.

Record result := { Data : value; Error : option error }.

(** [protocolCallback]: [Callback] and [abort] are channels, their state
    is the input of [GetResult] below. *)
Record protocolCallback := { noReply : bool }.

Definition newProtocolCallback (noReply : bool) : protocolCallback :=
  if noReply then {| noReply := true |} else {| noReply := false |}.

(** Which case of the [select] in [GetResult] fired. *)
Inductive wake := Received (r : result) | Aborted.

(** A case can fire when its channel is ready: [offer] is the result a
    sender holds out on [pc.Callback], [aborted] tells whether the abort
    channel is closed. With no ready case the caller stays blocked. *)
Definition fires (offer : option result) (aborted : bool) (w : wake) : Prop :=
  match w with
  | Received r => offer = Some r
  | Aborted => aborted = true
  end.

(** [protocolCallback.GetResult]; the [noReply] branch returns before the
    [select]. *)
Definition GetResult (pc : protocolCallback) (w : wake) : value * option error :=
  if noReply pc then (VNil, None)
  else match w with
       | Received r => (Data r, Error r)
       | Aborted => (VNil, Some (ErrNew "Connection closed"))
       end.

(** ** Messages *)

Record parsedStackTrace := {
  frames : list (gmap string value);
  metadata : gmap string value
}.

(** The outbound envelope built by [sendMessageToServer]. *)
Record envelope := {
  env_id : Z;
  env_guid : string;
  env_method : string;
  env_params : value;
  env_metadata : gmap string value
}.

(** Modelled from the spec: the declaration of [message] is not in the
    sources at hand. An inbound response is [{id, result?, error?}], an
    inbound notification [{guid, method, params}]; [connection.go] reads
    [ID], [GUID], [Method], [Params] (indexed by string keys), [Result]
    and [Error] (nil when absent). *)
Record message := {
  ID : Z;
  GUID : string;
  Method : string;
  Params : gmap string value;
  Result : value;
  MsgError : option remoteError
}.

(** ** The connection *)

(** Calls that leave the engine, in the order they are made. *)
Inductive event :=
| CallOnClose
| CallAfterClose
| CloseAbort
| CallOnMessage (e : envelope)
| CallAddStackToTracingNoReply (id : Z) (stack : list (gmap string value))
| CallCreateObjectFactory (parent : option channelOwner) (objectType guid : string)
                          (initializer : gmap string value)
| CallAdopt (object child : channelOwner)
| CallDispose (object : channelOwner)
| CallEmit (ch : loc) (method : string) (payload : value)
| Offer (id : Z) (r : result).   (* [pc.Callback <- r] for the callback of [id] *)

Record connection := {
  apiZone : option parsedStackTrace;      (* the "apiZone" key of the sync.Map *)
  objects : directory;
  lastID : Z;
  callbacks : gmap Z protocolCallback;
  afterClose : bool;                      (* is the hook set? *)
  onClose : option error;                 (* what the shutdown hook returns *)
  onmessage : option (envelope → option error);
  tracingCount : Z;
  abort : bool;                           (* is the abort channel closed? *)
  trace : list event
}.

Definition set_apiZone z (c : connection) : connection :=
  {| apiZone := z; objects := objects c; lastID := lastID c;
     callbacks := callbacks c; afterClose := afterClose c; onClose := onClose c;
     onmessage := onmessage c; tracingCount := tracingCount c; abort := abort c;
     trace := trace c |}.

Definition set_objects o (c : connection) : connection :=
  {| apiZone := apiZone c; objects := o; lastID := lastID c;
     callbacks := callbacks c; afterClose := afterClose c; onClose := onClose c;
     onmessage := onmessage c; tracingCount := tracingCount c; abort := abort c;
     trace := trace c |}.

Definition set_lastID n (c : connection) : connection :=
  {| apiZone := apiZone c; objects := objects c; lastID := n;
     callbacks := callbacks c; afterClose := afterClose c; onClose := onClose c;
     onmessage := onmessage c; tracingCount := tracingCount c; abort := abort c;
     trace := trace c |}.

Definition set_callbacks t (c : connection) : connection :=
  {| apiZone := apiZone c; objects := objects c; lastID := lastID c;
     callbacks := t; afterClose := afterClose c; onClose := onClose c;
     onmessage := onmessage c; tracingCount := tracingCount c; abort := abort c;
     trace := trace c |}.

Definition set_abort b (c : connection) : connection :=
  {| apiZone := apiZone c; objects := objects c; lastID := lastID c;
     callbacks := callbacks c; afterClose := afterClose c; onClose := onClose c;
     onmessage := onmessage c; tracingCount := tracingCount c; abort := b;
     trace := trace c |}.

Definition set_trace t (c : connection) : connection :=
  {| apiZone := apiZone c; objects := objects c; lastID := lastID c;
     callbacks := callbacks c; afterClose := afterClose c; onClose := onClose c;
     onmessage := onmessage c; tracingCount := tracingCount c; abort := abort c;
     trace := t |}.

(** [newConnection]: no hook but [onClose], an empty directory and table,
    the counter at zero, the abort channel open. *)
Definition newConnection (onClose : option error) : connection :=
  {| apiZone := None; objects := ∅; lastID := 0; callbacks := ∅;
     afterClose := false; onClose := onClose; onmessage := None;
     tracingCount := 0; abort := false; trace := [] |}.

(** ** The monad of connection methods: state and panics *)

Inductive outcome (A : Type) :=
| Done (a : A) (c : connection)
| Panic (c : connection).            (* the connection as the panic leaves it *)
Arguments Done {A} a c.
Arguments Panic {A} c.

Definition M (A : Type) : Type := connection → outcome A.

#[global] Instance M_ret : MRet M := λ A a c, Done a c.
#[global] Instance M_bind : MBind M := λ A B f m c,
  match m c with
  | Done a c' => f a c'
  | Panic c' => Panic c'
  end.

Definition get : M connection := λ c, Done c c.
Definition modify (f : connection → connection) : M unit := λ c, Done tt (f c).
Definition panic {A} : M A := λ c, Panic c.
Definition log (e : event) : M unit := modify (λ c, set_trace (trace c ++ [e]) c).

(** A Go expression that panics when the pure model returns [None]. *)
Definition must {A} (o : option A) : M A :=
  match o with
  | Some a => mret a
  | None => panic
  end.

Definition state_of {A} (o : outcome A) : connection :=
  match o with
  | Done _ c => c
  | Panic c => c
  end.

(** ** Collaborators outside [connection.go]

    [parseError], [transformOptions], the object factory and the
    [channelOwner] methods are declared elsewhere; [serializeCallStack]
    reads the Go run-time stack. The engine is verified for every
    implementation of them. The three directory functions give the
    directory after the call. *)
Class Externals := {
  parseError : remoteError → error;
  serializeCallStack : bool → parsedStackTrace;
  transformOptions : list value → value;
  createObjectFactory :
    option channelOwner → string → string → gmap string value → directory → directory;
  adopt : channelOwner → channelOwner → directory → directory;
  dispose : channelOwner → directory → directory
}.

(** Go's [int]: 64 bits, two's complement. *)
Definition max_int : Z := 2 ^ 63 - 1.
Definition wrap_int (z : Z) : Z := (z + 2 ^ 63) mod 2 ^ 64 - 2 ^ 63.

Section Engine.
Context `{Externals}.

(** *** Life cycle *)

(** [connection.cleanup]: the [select] closes the abort channel unless
    it is closed already. *)
Definition cleanup : M unit :=
  c ← get;
  (if afterClose c then log CallAfterClose else mret tt);;
  c ← get;
  if abort c then mret tt
  else log CloseAbort;; modify (set_abort true).

(** [connection.Stop]. *)
Definition Stop : M (option error) :=
  c ← get;
  log CallOnClose;;
  match onClose c with
  | Some err => mret (Some err)
  | None => cleanup;; mret None
  end.

(** *** The callback table and the metadata slot ([sync.Map]) *)

Definition callbacks_LoadAndDelete (id : Z) : M (option protocolCallback) :=
  c ← get;
  modify (set_callbacks (delete id (callbacks c)));;
  mret (callbacks c !! id).

Definition callbacks_LoadOrStore (id : Z) (pc : protocolCallback) : M protocolCallback :=
  c ← get;
  match callbacks c !! id with
  | Some actual => mret actual
  | None => modify (set_callbacks (<[id := pc]> (callbacks c)));; mret pc
  end.

Definition apiZone_LoadAndDelete : M (option parsedStackTrace) :=
  c ← get;
  modify (set_apiZone None);;
  mret (apiZone c).

(** [protocolCallback.SetResult] on the callback of [id]: nothing for a
    [noReply] callback, else the result is held out on [pc.Callback]
    until the waiter takes it or the abort channel is closed. *)
Definition SetResult (id : Z) (pc : protocolCallback) (r : result) : M unit :=
  if noReply pc then mret tt else log (Offer id r).

(** *** Dispatch *)

(** [v.(string)] *)
Definition as_string (v : option value) : option string :=
  match v with
  | Some (VStr s) => Some s
  | _ => None
  end.

(** [v.(map[string]interface{})] *)
Definition as_map (v : value) : option (gmap string value) :=
  match v with
  | VMap m => Some m
  | _ => None
  end.

(** [m[key]] read as an [interface{}]: nil when the key is missing. *)
Definition index (m : gmap string value) (key : string) : value :=
  default VNil (m !! key).

(** [connection.createRemoteObject]. *)
Definition createRemoteObject (parent : option channelOwner) (objectType guid : string)
    (initializer : value) : M unit :=
  c ← get;
  initializer ← must (replaceGuidsWithChannels (objects c) initializer);
  initializer ← must (as_map initializer);
  log (CallCreateObjectFactory parent objectType guid initializer);;
  modify (set_objects (createObjectFactory parent objectType guid initializer (objects c))).

(** [connection.Dispatch]. *)
Definition Dispatch (msg : message) : M unit :=
  let method := Method msg in
  if decide (ID msg ≠ 0) then
    cb ← callbacks_LoadAndDelete (ID msg);
    cb ← must cb;
    if noReply cb then mret tt
    else match MsgError msg with
         | Some e => SetResult (ID msg) cb {| Data := VNil; Error := Some (parseError e) |}
         | None =>
             c ← get;
             data ← must (replaceGuidsWithChannels (objects c) (Result msg));
             SetResult (ID msg) cb {| Data := data; Error := None |}
         end
  else
    c ← get;
    let object := objects c !! GUID msg in
    if decide (method = "__create__") then
      objectType ← must (as_string (Params msg !! "type"));
      guid ← must (as_string (Params msg !! "guid"));
      createRemoteObject object objectType guid (index (Params msg) "initializer")
    else match object with
    | None => mret tt
    | Some object =>
        if decide (method = "__adopt__") then
          guid ← must (as_string (Params msg !! "guid"));
          match objects c !! guid with
          | None => mret tt
          | Some child =>
              log (CallAdopt object child);;
              modify (set_objects (adopt object child (objects c)))
          end
        else if decide (method = "__dispose__") then
          log (CallDispose object);;
          modify (set_objects (dispose object (objects c)))
        else if decide (objectType object = "JsonPipe") then
          log (CallEmit (owner_channel object) method (VMap (Params msg)))
        else
          payload ← must (replaceGuidsWithChannels (objects c) (VMap (Params msg)));
          log (CallEmit (owner_channel object) method payload)
    end.

(** *** Sending *)

(** [connection.WrapAPICall]: [cb] is the closure, run on the
    connection. *)
Definition WrapAPICall {A} (cb : M A) (isInternal : bool) : M A :=
  c ← get;
  match apiZone c with
  | Some _ => cb
  | None => modify (set_apiZone (Some (serializeCallStack isInternal)));; cb
  end.

(** [connection.sendMessageToServer]. [h] is the memory the channel
    references in [params] point into, [now] is
    [time.Now().Nanosecond()]. Calling the nil [onmessage] panics. *)
Definition sendMessageToServer (h : heap) (guid method : string) (params : value)
    (noReply : bool) (now : Z) : M (option protocolCallback * option error) :=
  c ← get;
  modify (set_lastID (wrap_int (lastID c + 1)));;
  c ← get;
  let id := lastID c in
  apiZone ← apiZone_LoadAndDelete;
  let '(metadata, stack) :=
    match apiZone with
    | Some z => (metadata z, frames z)
    | None => (∅, [])
    end in
  let metadata := <["wallTime" := VInt now]> metadata in
  params ← must (replaceChannelsWithGuids h params);
  let message := {| env_id := id; env_guid := guid; env_method := method;
                    env_params := params; env_metadata := metadata |} in
  cb ← callbacks_LoadOrStore id (newProtocolCallback noReply);
  send ← must (onmessage c);
  log (CallOnMessage message);;
  match send message with
  | Some err => mret (None, Some (ErrWrap "could not send message" err))
  | None =>
      (if decide (0 < tracingCount c ∧ (0 < length stack)%nat ∧ guid ≠ "localUtils")
       then log (CallAddStackToTracingNoReply id stack)
       else mret tt);;
      mret (Some cb, None)
  end.

(** The entry the first iteration of [for key := range mapV] sees: Go
    starts a map iteration at an entry of its choice, [pick] is that
    choice. *)
Definition range_first (m : gmap string value) (pick : nat) : option value :=
  let entries := map_to_list m in
  snd <$> entries !! (pick `mod` length entries)%nat.

(** [channel.innerSend]. [w] is the case that wakes the blocked
    [GetResult]. *)
Definition innerSend (h : heap) (ch : channel) (method : string) (returnAsDict : bool)
    (options : list value) (now : Z) (w : wake) (pick : nat) : M (value * option error) :=
  let params := transformOptions options in
  '(callback, err) ← sendMessageToServer h (chan_guid ch) method params false now;
  match err with
  | Some err => mret (VNil, Some err)
  | None =>
      callback ← must callback;
      let '(result, err) := GetResult callback w in
      match err with
      | Some err => mret (VNil, Some err)
      | None =>
          match result with
          | VNil => mret (VNil, None)
          | _ =>
              if returnAsDict then mret (result, None)
              else match result with
                   | VMap mapV =>
                       if decide (size mapV = 0%nat) then mret (VNil, None)
                       else match range_first mapV pick with
                            | Some v => mret (v, None)
                            | None => mret (result, None)
                            end
                   | VStrMap _ => panic
                   | _ => mret (result, None)
                   end
          end
      end
  end.

(** [channel.Send] and [channel.SendReturnAsDict]. *)
Definition Send (h : heap) (ch : channel) (method : string) (options : list value)
    (now : Z) (w : wake) (pick : nat) : M (value * option error) :=
  WrapAPICall (innerSend h ch method false options now w pick) false.

Definition SendReturnAsDict (h : heap) (ch : channel) (method : string)
    (options : list value) (now : Z) (w : wake) (pick : nat) : M (value * option error) :=
  WrapAPICall (innerSend h ch method true options now w pick) true.

End Engine.

(** ** Runs on one connection, and the notions the properties use *)

(** The envelopes written to the transport, oldest first. *)
Definition sent (t : list event) : list envelope :=
  omap (λ e, match e with CallOnMessage m => Some m | _ => None end) t.

(** The arguments of one [sendMessageToServer] call. *)
Record call := {
  call_heap : heap;
  call_guid : string;
  call_method : string;
  call_params : value;
  call_noReply : bool;
  call_now : Z
}.

Definition do_call (k : call) : M (option protocolCallback * option error) :=
  sendMessageToServer (call_heap k) (call_guid k) (call_method k) (call_params k)
                      (call_noReply k) (call_now k).

(** One allocation: the id the call took ([id := c.lastID], read in the
    state the call leaves) and the callback table the call found. *)
Record allocation := {
  alloc_id : Z;
  alloc_found : gmap Z protocolCallback
}.

(** What happens on a connection: a caller's [sendMessageToServer], or an
    inbound message handed to [Dispatch]. *)
Inductive op :=
| OpSend (k : call)
| OpDispatch (msg : message).

Definition calls_in (ops : list op) : list call :=
  omap (λ o, match o with OpSend k => Some k | OpDispatch _ => None end) ops.

(** The allocations of a run on one connection, in order. A step that
    panics leaves its effects (a call has taken its id all the same); the
    run goes on from the state the panic left, as after a [recover]. *)
Fixpoint allocations `{Externals} (ops : list op) (c : connection) : list allocation :=
  match ops with
  | [] => []
  | OpSend k :: ops =>
      let c1 := state_of (do_call k c) in
      {| alloc_id := lastID c1; alloc_found := callbacks c |} :: allocations ops c1
  | OpDispatch msg :: ops => allocations ops (state_of (Dispatch msg c))
  end.

(** No callback is keyed above the counter. *)
Definition table_bounded (c : connection) : Prop :=
  ∀ id : Z, is_Some (callbacks c !! id) → (id ≤ lastID c)%Z.



(** The connection as [WrapAPICall] hands it to the closure. *)
Definition staged `{Externals} (isInternal : bool) (c : connection) : connection :=
  match apiZone c with
  | Some _ => c
  | None => set_apiZone (Some (serializeCallStack isInternal)) c
  end.

(** What [replaceChannelsWithGuids] makes of a value whose channel
    references are all live. *)
Fixpoint encoded (h : heap) (v : value) : value :=
  match v with
  | VChan p => VStrMap {[ "guid" := default EmptyString (chan_guid <$> h !! p) ]}
  | VList l => VList (encoded h <$> l)
  | VMap m => VMap (encoded h <$> m)
  | VStrMap m => VMap (VStr <$> m)
  | _ => v
  end.

(** The envelope [sendMessageToServer] builds on connection [c] for the
    encoded parameters [params]. *)
Definition envelope_of (guid method : string) (params : value) (now : Z)
    (c : connection) : envelope :=
  {| env_id := wrap_int (lastID c + 1); env_guid := guid; env_method := method;
     env_params := params;
     env_metadata := <["wallTime" := VInt now]>
                       (match apiZone c with Some z => metadata z | None => ∅ end) |}.

(** The callback table [LoadOrStore] leaves. *)
Definition stored (id : Z) (pc : protocolCallback) (t : gmap Z protocolCallback) :
    gmap Z protocolCallback :=
  match t !! id with
  | Some _ => t
  | None => <[id := pc]> t
  end.

(** ** Concrete collaborators and connections for the examples *)

Definition plain_externals : Externals := {|
  parseError e := ErrRemote (err_name e) (err_message e) (err_stack e);
  serializeCallStack isInternal :=
    {| frames := [ {[ "function" := VStr "main.run" ]} ];
       metadata := {[ "apiName" := VStr (if isInternal then EmptyString else "Page.Click");
                      "isInternal" := VBool isInternal ]} |};
  transformOptions options := VList options;
  createObjectFactory parent objectType guid initializer objects :=
    <[guid := {| objectType := objectType; owner_guid := guid; owner_channel := 1%positive |}]>
      objects;
  adopt object child objects := objects;
  dispose object objects := delete (owner_guid object) objects
|}.

(** A transport whose writes succeed. *)
Definition pipe : envelope → option error := λ _, None.

(** A started connection with a registered page and a registered byte
    pipe. *)
Definition page_owner : channelOwner :=
  {| objectType := "Page"; owner_guid := "page@1"; owner_channel := 7%positive |}.
Definition pipe_owner : channelOwner :=
  {| objectType := "JsonPipe"; owner_guid := "pipe@1"; owner_channel := 8%positive |}.
Definition page_heap : heap :=
  <[7%positive := {| chan_guid := "page@1" |}]> {[ 8%positive := {| chan_guid := "pipe@1" |} ]}.
Definition live : connection :=
  {| apiZone := None;
     objects := <["page@1" := page_owner]> {[ "pipe@1" := pipe_owner ]};
     lastID := 0;
     callbacks := ∅; afterClose := true; onClose := None; onmessage := Some pipe;
     tracingCount := 0; abort := false; trace := [] |}.


(** A nested payload with the registered page channel in a mapping and in
    a sequence, and a "guid" entry that names no registered object. *)
Definition nested_payload : value :=
  VMap (<["guid" := VStr "none"]>
          {[ "targets" := VList [VChan 7%positive; VInt 3;
                                 VMap {[ "page" := VChan 7%positive ]}] ]}).

(** * Further definitions: the rest of the engine and its callers *)

(** ** Shapes of values *)

(** [P] holds at every node of the value: at the value itself, at every
    element of a sequence and at every entry of a mapping, at any depth. *)
Inductive value_Forall (P : value → Prop) : value → Prop :=
| vf_nil : P VNil → value_Forall P VNil
| vf_bool b : P (VBool b) → value_Forall P (VBool b)
| vf_int z : P (VInt z) → value_Forall P (VInt z)
| vf_str s : P (VStr s) → value_Forall P (VStr s)
| vf_chan p : P (VChan p) → value_Forall P (VChan p)
| vf_strmap m : P (VStrMap m) → value_Forall P (VStrMap m)
| vf_list l : P (VList l) → Forall (value_Forall P) l → value_Forall P (VList l)
| vf_map m : P (VMap m) → map_Forall (λ _, value_Forall P) m → value_Forall P (VMap m).

(** The node is no channel reference. *)
Definition not_channel (v : value) : Prop :=
  match v with
  | VChan _ => False
  | _ => True
  end.

(** The node, when a channel reference, points at a channel. *)
Definition live_node (h : heap) (v : value) : Prop :=
  match v with
  | VChan p => is_Some (h !! p)
  | _ => True
  end.

(** The node is one of a payload as the JSON decoder builds it (nil, a
    boolean, a number, a string, a [[]interface{}], a
    [map[string]interface{}]) or a channel reference, so no typed map,
    and a mapping holds a string under "guid" if it holds anything
    there. *)
Definition decodable_node (v : value) : Prop :=
  match v with
  | VStrMap _ => False
  | VMap m =>
      match m !! "guid" with
      | Some (VStr _) | None => True
      | Some _ => False
      end
  | _ => True
  end.

(** ** The rest of the connection and of the channel *)

Definition set_tracingCount n (c : connection) : connection :=
  {| apiZone := apiZone c; objects := objects c; lastID := lastID c;
     callbacks := callbacks c; afterClose := afterClose c; onClose := onClose c;
     onmessage := onmessage c; tracingCount := n; abort := abort c;
     trace := trace c |}.

(** [atomic.Int32]: 32 bits, two's complement. *)
Definition wrap_int32 (z : Z) : Z := (z + 2 ^ 31) mod 2 ^ 32 - 2 ^ 31.

(** [connection.setInTracing]. *)
Definition setInTracing (isTracing : bool) : M unit :=
  c ← get;
  if isTracing then modify (set_tracingCount (wrap_int32 (tracingCount c + 1)))
  else modify (set_tracingCount (wrap_int32 (tracingCount c + -1))).

(** [channel.SendNoReply]. The Go method returns nothing; the value here
    is the error it hands to [log.Printf], nil when it logs nothing. *)
Definition SendNoReply `{Externals} (h : heap) (ch : channel) (method : string)
    (options : list value) (now : Z) : M (option error) :=
  let params := transformOptions options in
  '(_, err) ← WrapAPICall (sendMessageToServer h (chan_guid ch) method params true now) false;
  mret err.

(** What can happen on a connection, one after the other. *)
Inductive action :=
| ActSend (k : call)
| ActWrappedSend (k : call) (isInternal : bool)
| ActDispatch (msg : message)
| ActStop
| ActTracing (isTracing : bool).

(** The connection an action leaves, also when it panicked. *)
Definition act `{Externals} (a : action) (c : connection) : connection :=
  match a with
  | ActSend k => state_of (do_call k c)
  | ActWrappedSend k isInternal => state_of (WrapAPICall (do_call k) isInternal c)
  | ActDispatch msg => state_of (Dispatch msg c)
  | ActStop => state_of (Stop c)
  | ActTracing isTracing => state_of (setInTracing isTracing c)
  end.

Definition run `{Externals} (acts : list action) (c : connection) : connection :=
  foldl (λ c a, act a c) c acts.

(** How often the abort channel was closed. *)
Definition closes (t : list event) : nat :=
  length (omap (λ e, match e with CloseAbort => Some tt | _ => None end) t).

(** The events handed to the emitters, oldest first. *)
Definition emitted (t : list event) : list (loc * string * value) :=
  omap (λ e, match e with
             | CallEmit ch method payload => Some (ch, method, payload)
             | _ => None
             end) t.

(** The abort channel was closed as often as its state tells: not at
    all while it is open, once when it is closed. *)
Definition closed_once (c : connection) : Prop :=
  (abort c = false ∧ closes (trace c) = 0%nat)
  ∨ (abort c = true ∧ closes (trace c) = 1%nat).

(** The stacks handed to the tracing sink, oldest first. *)
Definition forwarded (t : list event) : list (Z * list (gmap string value)) :=
  omap (λ e, match e with
             | CallAddStackToTracingNoReply id stack => Some (id, stack)
             | _ => None
             end) t.

(** The frames staged in the metadata slot. *)
Definition staged_frames (c : connection) : list (gmap string value) :=
  match apiZone c with
  | Some z => frames z
  | None => []
  end.

(** Tracing sessions begun minus tracing sessions ended. *)
Definition balance (bs : list bool) : Z :=
  foldr (λ (b : bool) n, (if b then 1 else -1) + n) 0 bs.

(** The calls [setInTracing(b)] for the [b] of the list, in order. *)
Definition setInTracing_all (bs : list bool) (c : connection) : connection :=
  foldl (λ c b, state_of (setInTracing b c)) c bs.

(** ** Selector escaping ([locator_helpers.go])

    A Go string is its bytes. *)

Definition quote : ascii := "034"%char.
Definition backslash : ascii := "092"%char.

(** [strings.Replace(s, old, new, -1)] for a one-byte [old]: the
    occurrences of a single byte do not overlap, each is replaced. *)
Fixpoint replace_byte (old : ascii) (new : list ascii) (s : list ascii) : list ascii :=
  match s with
  | [] => []
  | a :: rest =>
      if decide (a = old) then new ++ replace_byte old new rest
      else a :: replace_byte old new rest
  end.

(** The two replacements of [escapeForAttributeSelector], backslashes
    first. *)
Definition escaped_body (value : list ascii) : list ascii :=
  replace_byte quote [backslash; quote]
    (replace_byte backslash [backslash; backslash] value).

(** [escapeForAttributeSelector]. *)
Definition escapeForAttributeSelector (value : list ascii) (exact : bool) : list ascii :=
  let suffix := if exact then "s"%char else "i"%char in
  [quote] ++ escaped_body value ++ [quote] ++ [suffix].

(** Reading an escaped body back: a backslash makes the next byte
    literal. [escaped] tells whether the byte before was such a
    backslash. *)
Fixpoint unescape_from (escaped : bool) (s : list ascii) : list ascii :=
  match s with
  | [] => []
  | a :: rest =>
      if escaped then a :: unescape_from false rest
      else if decide (a = backslash) then unescape_from true rest
      else a :: unescape_from false rest
  end.

(** The bytes of an escaped body at which a reader that honours the
    backslash would see the closing quote. *)
Fixpoint bare_quotes (escaped : bool) (s : list ascii) : nat :=
  match s with
  | [] => 0
  | a :: rest =>
      if escaped then bare_quotes false rest
      else if decide (a = backslash) then bare_quotes true rest
      else if decide (a = quote) then S (bare_quotes false rest)
      else bare_quotes false rest
  end.

(** ** The browser proxy, a caller of the channel and of [Stop] *)

(** [browserImpl]: the channel of the embedded [channelOwner] and the
    three flags [Close] and [onClose] work on. *)
Record browserImpl := {
  browser_channel : channel;
  isConnected : bool;
  isClosedOrClosing : bool;
  shouldCloseConnectionOnClose : bool
}.

Definition set_isClosedOrClosing v (b : browserImpl) : browserImpl :=
  {| browser_channel := browser_channel b; isConnected := isConnected b;
     isClosedOrClosing := v;
     shouldCloseConnectionOnClose := shouldCloseConnectionOnClose b |}.

Definition set_isConnected v (b : browserImpl) : browserImpl :=
  {| browser_channel := browser_channel b; isConnected := v;
     isClosedOrClosing := isClosedOrClosing b;
     shouldCloseConnectionOnClose := shouldCloseConnectionOnClose b |}.

(** [browserImpl.onClose]: the browser it leaves and the events it emits
    on the browser's own emitter. *)
Definition browser_onClose (b : browserImpl) : browserImpl * list string :=
  let b := set_isClosedOrClosing true b in
  if isConnected b then (set_isConnected false b, ["disconnected"])
  else (b, []).

(** [browserImpl.Close]. [isSafeCloseError] is declared elsewhere and is
    a parameter; [w] and [pick] are the scheduler's choices for the
    [Send] inside. The result is the error returned and the browser
    left; when the [Send] or the [Stop] inside panics, the outcome
    carries the connection only. *)
Definition browser_Close `{Externals} (isSafeCloseError : error → bool) (h : heap)
    (b : browserImpl) (now : Z) (w : wake) (pick : nat) : M (option error * browserImpl) :=
  if isClosedOrClosing b then mret (None, b)
  else
    let b := set_isClosedOrClosing true b in
    '(_, err) ← Send h (browser_channel b) "close" [] now w pick;
    match err with
    | Some e =>
        if negb (isSafeCloseError e)
        then mret (Some (ErrWrap "close browser failed" e), b)
        else if shouldCloseConnectionOnClose b
             then err ← Stop; mret (err, b)
             else mret (None, b)
    | None =>
        if shouldCloseConnectionOnClose b
        then err ← Stop; mret (err, b)
        else mret (None, b)
    end.

(** * Properties *)

(** ** Induction on values and the map traversal *)

Lemma map_fold_sum_le {A} (g : A → nat) (m : gmap string A) k x :
  m !! k = Some x → (g x ≤ map_fold (λ _ y n, g y + n) 0 m)%nat.
Proof.
  revert k x.
  apply (map_fold_weak_ind (λ r m, ∀ k x, m !! k = Some x → g x ≤ r)%nat).
  - intros k x Hk. by rewrite lookup_empty in Hk.
  - intros i y m' r Hi IH k x Hk.
    destruct (decide (i = k)) as [->|Hne].
    + rewrite lookup_insert_eq in Hk. injection Hk as ->. lia.
    + rewrite lookup_insert_ne in Hk by done. specialize (IH k x Hk). lia.
Qed.

Lemma foldr_sum_le {A} (g : A → nat) (l : list A) x :
  x ∈ l → (g x ≤ foldr (λ y n, g y + n) 0 l)%nat.
Proof. induction 1 as [|? ? ? ? IH]; simpl; lia. Qed.

(** Induction over a value, with the hypothesis for every element of a
    sequence and every entry of a mapping. *)
Lemma value_ind' (P : value → Prop) :
  P VNil → (∀ b, P (VBool b)) → (∀ z, P (VInt z)) → (∀ s, P (VStr s)) →
  (∀ p, P (VChan p)) →
  (∀ l, Forall P l → P (VList l)) →
  (∀ m, map_Forall (λ _, P) m → P (VMap m)) →
  (∀ m, P (VStrMap m)) →
  ∀ v, P v.
Proof.
  intros Hnil Hbool Hint Hstr Hchan Hlist Hmap Hsmap v.
  remember (value_size v) as n eqn:Hn. revert v Hn.
  induction (lt_wf n) as [n _ IH]. intros v ->.
  destruct v as [| | | | |l|m|m]; auto.
  - apply Hlist, Forall_forall. intros x Hx.
    apply (IH (value_size x)); [|done].
    simpl. pose proof (foldr_sum_le value_size l x Hx). lia.
  - apply Hmap. intros k x Hk.
    apply (IH (value_size x)); [|done].
    simpl. pose proof (map_fold_sum_le value_size m k x Hk). lia.
Qed.

Lemma map_sequence_fmap_Some {A} (m : gmap string A) :
  map_sequence (Some <$> m) = Some m.
Proof.
  unfold map_sequence. rewrite map_fold_fmap.
  apply (map_fold_weak_ind (λ r m, r = Some m)); [done|].
  intros i x m' r _ ->. done.
Qed.





(** ** The value codec *)

Section Codec.
Variables (h : heap) (objects : directory).



(** Decoding straight from the encoder's result, with no JSON in
    between, panics on every channel reference: the encoder builds a
    [map[string]string], the decoder asserts [map[string]interface{}]. *)
Lemma decode_unserialized_reference p ch :
  h !! p = Some ch →
  replaceChannelsWithGuids h (VChan p) ≫= replaceGuidsWithChannels objects = None.
Proof. intros Hp. simpl. by rewrite Hp. Qed.
End Codec.





(** ** Running the methods of the connection *)

Ltac run :=
  repeat (progress (unfold must, mbind, M_bind, mret, M_ret, get, modify, log, panic in *;
                    simpl in *)).

Lemma set_callbacks_same c : set_callbacks (callbacks c) c = c.
Proof. by destruct c. Qed.

Lemma sent_app t1 t2 : sent (t1 ++ t2) = sent t1 ++ sent t2.
Proof. apply omap_app. Qed.

Lemma wrap_int_succ z : 0 ≤ z → z < max_int → wrap_int (z + 1) = z + 1.
Proof.
  unfold wrap_int, max_int. intros H0 H1.
  rewrite Z.mod_small; lia.
Qed.

(** ** Dispatch *)

Section Dispatcher.
Context `{Externals}.

(** A response whose id has no entry in the callback table: the type
    assertion on the nil interface that [LoadAndDelete] returned
    panics; the table and the directory are as before. *)
Lemma Dispatch_unknown_id msg c :
  ID msg ≠ 0 → callbacks c !! ID msg = None → Dispatch msg c = Panic c.
Proof.
  intros Hid Hcb. unfold Dispatch, callbacks_LoadAndDelete.
  rewrite decide_True by done. run. rewrite Hcb. simpl.
  by rewrite delete_id, set_callbacks_same.
Qed.

(** A message for an owner the directory does not know, other than a
    creation, is dropped. *)
Lemma Dispatch_unknown_owner msg c :
  ID msg = 0 → Method msg ≠ "__create__" → objects c !! GUID msg = None →
  Dispatch msg c = Done tt c.
Proof.
  intros Hid Hc Hobj. unfold Dispatch.
  rewrite decide_False by (intros ?; done). run.
  rewrite (decide_False (P := Method msg = "__create__")) by done.
  by rewrite Hobj.
Qed.

Lemma Dispatch_event msg c object :
  ID msg = 0 →
  Method msg ≠ "__create__" → Method msg ≠ "__adopt__" → Method msg ≠ "__dispose__" →
  objects c !! GUID msg = Some object →
  Dispatch msg c =
    if decide (objectType object = "JsonPipe")
    then log (CallEmit (owner_channel object) (Method msg) (VMap (Params msg))) c
    else (payload ← must (replaceGuidsWithChannels (objects c) (VMap (Params msg)));
          log (CallEmit (owner_channel object) (Method msg) payload)) c.
Proof.
  intros Hid Hc Ha Hd Hobj. unfold Dispatch.
  rewrite decide_False by (intros ?; done).
  unfold mbind at 1, M_bind at 1, get at 1.
  rewrite (decide_False (P := Method msg = "__create__")) by done.
  rewrite Hobj.
  rewrite (decide_False (P := Method msg = "__adopt__")) by done.
  rewrite (decide_False (P := Method msg = "__dispose__")) by done.
  by case_decide.
Qed.

(** C7. A guid-addressed message whose method is none of the three
    control verbs and whose owner is registered: for an owner of type
    "JsonPipe" the params go to the channel's emitter as they came; for
    any other type the emitter gets the params decoded by
    [replaceGuidsWithChannels] (and the dispatcher panics when that
    decoder does). *)
Theorem Dispatch_event_payload msg c object :
  ID msg = 0 →
  Method msg ≠ "__create__" → Method msg ≠ "__adopt__" → Method msg ≠ "__dispose__" →
  objects c !! GUID msg = Some object →
  (objectType object = "JsonPipe" →
     Dispatch msg c =
       Done tt (set_trace (trace c ++ [CallEmit (owner_channel object) (Method msg)
                                               (VMap (Params msg))]) c))
  ∧ (objectType object ≠ "JsonPipe" →
     match replaceGuidsWithChannels (objects c) (VMap (Params msg)) with
     | Some payload =>
         Dispatch msg c =
           Done tt (set_trace (trace c ++ [CallEmit (owner_channel object) (Method msg)
                                                   payload]) c)
     | None => Dispatch msg c = Panic c
     end).
Proof.
  intros Hid Hc Ha Hd Hobj.
  rewrite (Dispatch_event msg c object Hid Hc Ha Hd Hobj).
  split; intros Hty.
  - by rewrite decide_True.
  - rewrite decide_False by done.
    by destruct (replaceGuidsWithChannels (objects c) (VMap (Params msg))).
Qed.

(** What [Dispatch] does with a creation. *)
Lemma Dispatch_create msg c :
  ID msg = 0 → Method msg = "__create__" →
  Dispatch msg c =
    (objectType ← must (as_string (Params msg !! "type"));
     guid ← must (as_string (Params msg !! "guid"));
     createRemoteObject (objects c !! GUID msg) objectType guid
       (index (Params msg) "initializer")) c.
Proof.
  intros Hid Hm. unfold Dispatch.
  rewrite decide_False by (intros ?; done).
  unfold mbind at 1, M_bind at 1, get at 1.
  by rewrite decide_True.
Qed.

(** C10. A "__create__" notification is handled before the owner check:
    also when the addressed parent is not in the directory it is not
    dropped, and when its params carry the type, the guid and an
    initializer that decodes to a mapping, the object factory is called,
    with a nil parent. *)
Theorem Dispatch_create_unknown_parent msg c :
  ID msg = 0 → Method msg = "__create__" →
  objects c !! GUID msg = None →
  Dispatch msg c ≠ Done tt c
  ∧ ∀ objectType guid initializer,
      Params msg !! "type" = Some (VStr objectType) →
      Params msg !! "guid" = Some (VStr guid) →
      replaceGuidsWithChannels (objects c) (index (Params msg) "initializer")
        = Some (VMap initializer) →
      Dispatch msg c =
        Done tt (set_objects
                   (createObjectFactory None objectType guid initializer (objects c))
                   (set_trace (trace c ++ [CallCreateObjectFactory None objectType guid
                                                                   initializer]) c)).
Proof.
  intros Hid Hm Hobj. rewrite (Dispatch_create msg c Hid Hm), Hobj.
  unfold createRemoteObject. split.
  - destruct (as_string (Params msg !! "type")) as [ty|]; run; [|done].
    destruct (as_string (Params msg !! "guid")) as [g|]; run; [|done].
    destruct (replaceGuidsWithChannels (objects c) (index (Params msg) "initializer"))
      as [init|]; run; [|done].
    destruct (as_map init) as [m|]; run; [|done].
    intros Heq. apply (f_equal state_of), (f_equal trace), (f_equal length) in Heq.
    simpl in Heq. rewrite length_app in Heq. simpl in Heq. lia.
  - intros objectType guid initializer Hty Hguid Hinit.
    rewrite Hty, Hguid. run. rewrite Hinit. by run.
Qed.
End Dispatcher.

(** C1, on the code. A response with id 5 reaching a connection whose
    callback table is empty makes [Dispatch] panic: it is not a silent
    no-op. Nothing is delivered and the connection is as it was. *)
Theorem Dispatch_unmatched_response_panics :
  Dispatch (H := plain_externals)
    {| ID := 5; GUID := EmptyString; Method := EmptyString; Params := ∅;
       Result := VInt 42; MsgError := None |}
    live
  = Panic live.
Proof. by apply Dispatch_unknown_id. Qed.

Lemma Dispatch_event_payload_witness :
  let params : gmap string value := {[ "page" := VMap {[ "guid" := VStr "page@1" ]} ]} in
  let event guid := {| ID := 0; GUID := guid; Method := "message"; Params := params;
                       Result := VNil; MsgError := None |} in
  objects live !! "page@1" = Some page_owner
  ∧ objects live !! "pipe@1" = Some pipe_owner
  ∧ Dispatch (H := plain_externals) (event "pipe@1") live =
      Done tt (set_trace [CallEmit 8%positive "message" (VMap params)] live)
  ∧ Dispatch (H := plain_externals) (event "page@1") live =
      Done tt (set_trace [CallEmit 7%positive "message"
                            (VMap {[ "page" := VChan 7%positive ]})] live).
Proof.
  intros params event.
  assert (objects live !! "page@1" = Some page_owner) as Hpage by reflexivity.
  assert (objects live !! "pipe@1" = Some pipe_owner) as Hpipe by reflexivity.
  split; [exact Hpage|]. split; [exact Hpipe|]. split.
  - destruct (Dispatch_event_payload (H := plain_externals) (event "pipe@1") live pipe_owner)
      as [Hraw _]; [done..|].
    apply (Hraw eq_refl).
  - destruct (Dispatch_event_payload (H := plain_externals) (event "page@1") live page_owner)
      as [_ Hdec]; [done..|].
    apply (Hdec ltac:(done)).
Defined.

Lemma Dispatch_create_unknown_parent_witness :
  let msg := {| ID := 0; GUID := "browser@9"; Method := "__create__";
                Params := <["type" := VStr "Page"]>
                            (<["guid" := VStr "page@2"]>
                               {[ "initializer" :=
                                    VMap {[ "opener" := VMap {[ "guid" := VStr "page@1" ]} ]} ]});
                Result := VNil; MsgError := None |} in
  objects live !! GUID msg = None
  ∧ Dispatch (H := plain_externals) msg live =
      Done tt (set_objects
                 (createObjectFactory (Externals := plain_externals) None "Page" "page@2"
                    {[ "opener" := VChan 7%positive ]} (objects live))
                 (set_trace [CallCreateObjectFactory None "Page" "page@2"
                               {[ "opener" := VChan 7%positive ]}] live)).
Proof.
  intros msg.
  assert (objects live !! GUID msg = None) as Hobj by reflexivity.
  split; [exact Hobj|].
  destruct (Dispatch_create_unknown_parent (H := plain_externals) msg live
              eq_refl eq_refl Hobj) as [_ Hcall].
  apply (Hcall "Page" "page@2" {[ "opener" := VChan 7%positive ]}); by vm_compute.
Defined.

(** ** Life cycle and callbacks *)

Lemma Stop_ok c :
  onClose c = None → abort (state_of (Stop c)) = true.
Proof.
  intros Hok. unfold Stop, cleanup. run. rewrite Hok. run.
  destruct (afterClose c); run; destruct (abort c) eqn:Hab; run; by rewrite ?Hab.
Qed.

(** C9. When the shutdown hook returns an error, [Stop] returns that
    error and does nothing after the hook: [afterClose] is not called,
    the abort channel is not closed, the callback table is untouched, and
    a caller blocked in [GetResult] on an open abort channel stays
    blocked. *)
Theorem Stop_hook_error c err :
  onClose c = Some err →
  Stop c = Done (Some err) (set_trace (trace c ++ [CallOnClose]) c)
  ∧ (let c' := state_of (Stop c) in
     trace c' = trace c ++ [CallOnClose]
     ∧ abort c' = abort c
     ∧ callbacks c' = callbacks c
     ∧ (abort c = false → ∀ w, ¬ fires None (abort c') w)).
Proof.
  intros Herr.
  assert (Stop c = Done (Some err) (set_trace (trace c ++ [CallOnClose]) c)) as ->.
  { unfold Stop. run. by rewrite Herr. }
  split; [done|]. simpl. repeat split.
  intros Hopen [r|]; simpl; [done|]. by rewrite Hopen.
Qed.

Lemma Stop_hook_error_witness :
  let c := set_callbacks {[ 3 := {| noReply := false |} ]}
             {| apiZone := None; objects := ∅; lastID := 3; callbacks := ∅;
                afterClose := true; onClose := Some (ErrNew "driver gone");
                onmessage := Some pipe; tracingCount := 0; abort := false; trace := [] |} in
  onClose c = Some (ErrNew "driver gone")
  ∧ Stop c = Done (Some (ErrNew "driver gone")) (set_trace [CallOnClose] c).
Proof.
  intros c. split; [reflexivity|].
  apply (Stop_hook_error c (ErrNew "driver gone")). reflexivity.
Defined.

(** C5. [GetResult] on a [noReply] callback returns no value and no
    error whatever the channels hold. On any other callback it returns
    the delivered value when a result without error is received, the
    delivered error when a result with an error is received, and the
    error "Connection closed" when the abort channel fires; after a [Stop]
    whose hook succeeded the abort case can fire, and every callback
    still in the table that awaits a reply, with no result held out to
    it, returns that one error. *)
Theorem GetResult_outcomes (pc : protocolCallback) :
  (noReply pc = true → ∀ w, GetResult pc w = (VNil, None))
  ∧ (noReply pc = false →
       (∀ v, GetResult pc (Received {| Data := v; Error := None |}) = (v, None))
     ∧ (∀ v e, GetResult pc (Received {| Data := v; Error := Some e |}) = (v, Some e))
     ∧ GetResult pc Aborted = (VNil, Some (ErrNew "Connection closed")))
  ∧ (∀ c, onClose c = None →
       let c' := state_of (Stop c) in
       fires None (abort c') Aborted
       ∧ ∀ id pc' w, callbacks c' !! id = Some pc' → noReply pc' = false →
                     fires None (abort c') w →
                     GetResult pc' w = (VNil, Some (ErrNew "Connection closed"))).
Proof.
  unfold GetResult. split; [|split].
  - intros Hn w. by rewrite Hn.
  - intros Hn. by rewrite Hn.
  - intros c Hok. split; [by apply Stop_ok|].
    intros id pc' w _ Hreply Hw. rewrite Hreply.
    destruct w as [r|]; [|done]. simpl in Hw. discriminate Hw.
Qed.

Lemma GetResult_outcomes_witness :
  noReply {| noReply := false |} = false
  ∧ GetResult {| noReply := false |} (Received {| Data := VInt 42; Error := None |})
    = (VInt 42, None)
  ∧ GetResult {| noReply := false |} Aborted = (VNil, Some (ErrNew "Connection closed")).
Proof.
  destruct (GetResult_outcomes {| noReply := false |}) as (_ & Hreply & _).
  destruct (Hreply eq_refl) as (Hval & _ & Hclosed).
  split; [reflexivity|]. split; [apply Hval|apply Hclosed].
Defined.

(** ** Sending *)

(** What a call leaves behind, whether it returns or panics. *)
Lemma sendMessageToServer_state h guid method params noReply now c :
  let c' := state_of (sendMessageToServer h guid method params noReply now c) in
  lastID c' = wrap_int (lastID c + 1) ∧ apiZone c' = None ∧
  objects c' = objects c ∧ abort c' = abort c ∧
  (callbacks c' = callbacks c ∨
   callbacks c' = stored (lastID c') (newProtocolCallback noReply) (callbacks c)).
Proof.
  unfold sendMessageToServer, callbacks_LoadOrStore, apiZone_LoadAndDelete, stored.
  destruct (apiZone c) as [z|] eqn:Hz;
  destruct (replaceChannelsWithGuids h params) as [wire|] eqn:Hwire;
  run; rewrite ?Hz, ?Hwire; run; auto 10;
  (destruct (callbacks c !! wrap_int (lastID c + 1)) as [pc|] eqn:Hpc; run;
   destruct (onmessage c) as [send|] eqn:Hsend; run; auto 10;
   repeat (case_match; run; simplify_eq; auto 10)).
Qed.

(** What a call that returns has done. *)
Lemma sendMessageToServer_Done h guid method params noReply now c out c' :
  sendMessageToServer h guid method params noReply now c = Done out c' →
  ∃ wire send,
    replaceChannelsWithGuids h params = Some wire ∧ onmessage c = Some send ∧
    let id := wrap_int (lastID c + 1) in
    let e := envelope_of guid method wire now c in
    sent (trace c') = sent (trace c) ++ [e] ∧
    lastID c' = id ∧ apiZone c' = None ∧
    callbacks c' = stored id (newProtocolCallback noReply) (callbacks c) ∧
    out = match send e with
          | Some err => (None, Some (ErrWrap "could not send message" err))
          | None => (callbacks c' !! id, None)
          end.
Proof.
  unfold sendMessageToServer, callbacks_LoadOrStore, apiZone_LoadAndDelete, stored, envelope_of.
  intros Hrun. run.
  destruct (apiZone c) as [z|] eqn:Hz;
  (destruct (replaceChannelsWithGuids h params) as [wire|] eqn:Hwire; run; [|done]);
  (destruct (callbacks c !! wrap_int (lastID c + 1)) as [pc|] eqn:Hpc; run);
  (destruct (onmessage c) as [send|] eqn:Hsend; run; [|done]);
  exists wire, send; (split; [done|]); (split; [done|]);
  repeat (case_match; run); simplify_eq; simpl;
  rewrite ?sent_app, ?app_nil_r; simpl; rewrite ?app_nil_r, ?lookup_insert_eq, ?Hpc; done.
Qed.

Lemma stored_lookup id pc t : is_Some (stored id pc t !! id).
Proof.
  unfold stored. destruct (t !! id) as [pc'|] eqn:Ht.
  - by rewrite Ht.
  - by rewrite lookup_insert_eq.
Qed.

(** C4 does not hold with [noReply] set: such a call on a connection
    with an empty callback table takes id 1 and leaves a callback, flagged
    [noReply], under that id. *)
Lemma noReply_callback_registered :
  let c' := state_of (sendMessageToServer page_heap "page@1" "close" VNil true 0 live) in
  lastID c' = 1
  ∧ callbacks c' !! lastID c' = Some {| noReply := true |}
  ∧ ¬ (is_Some (callbacks c' !! lastID c') ↔ true = false).
Proof.
  assert (callbacks (state_of (sendMessageToServer page_heap "page@1" "close" VNil true 0 live))
            !! 1 = Some {| noReply := true |}) as Hcb by (vm_compute; reflexivity).
  simpl. split; [reflexivity|]. split; [exact Hcb|].
  intros [Hreg _]. specialize (Hreg (ex_intro _ _ Hcb)). discriminate Hreg.
Qed.

(** C4, amended. A call to [sendMessageToServer] that returns (with the
    callback or with a write error) leaves a callback under the id it
    allocated, whether [noReply] is set or not; when the id had no entry
    before the call, that callback is the one created for the call and
    carries the call's [noReply] flag. *)
Theorem callback_always_registered h guid method params flag now c out c' :
  sendMessageToServer h guid method params flag now c = Done out c' →
  lastID c' = wrap_int (lastID c + 1)
  ∧ is_Some (callbacks c' !! lastID c')
  ∧ (callbacks c !! lastID c' = None →
     callbacks c' !! lastID c' = Some (newProtocolCallback flag)
     ∧ noReply (newProtocolCallback flag) = flag).
Proof.
  intros Hrun.
  destruct (sendMessageToServer_Done _ _ _ _ _ _ _ _ _ Hrun)
    as (wire & send & _ & _ & _ & Hid & _ & Hcb & _).
  rewrite Hid, Hcb. split; [done|]. split; [apply stored_lookup|].
  intros Hfree. unfold stored. rewrite Hfree, lookup_insert_eq.
  split; [done|]. by destruct flag.
Qed.

Lemma callback_always_registered_witness :
  let run := sendMessageToServer page_heap "page@1" "close" VNil true 0 live in
  run = Done (Some {| noReply := true |}, None) (state_of run)
  ∧ is_Some (callbacks (state_of run) !! lastID (state_of run)).
Proof.
  intros run.
  assert (run = Done (Some {| noReply := true |}, None) (state_of run)) as Hrun
    by (vm_compute; reflexivity).
  split; [exact Hrun|].
  apply (callback_always_registered _ _ _ _ _ _ _ _ _ Hrun).
Defined.

(** One call on a connection whose counter has room takes the successor
    of the counter. *)
Lemma do_call_id k c :
  0 ≤ lastID c → lastID c < max_int →
  lastID (state_of (do_call k c)) = lastID c + 1.
Proof.
  intros H0 Hmax. unfold do_call.
  destruct (sendMessageToServer_state (call_heap k) (call_guid k) (call_method k)
              (call_params k) (call_noReply k) (call_now k) c) as (Hid & _).
  simpl in Hid. by rewrite wrap_int_succ in Hid.
Qed.

(** When no callback is keyed above the counter, the id is new to the
    table, and the table stays below the counter. *)
Lemma do_call_bounded k c :
  0 ≤ lastID c → lastID c < max_int → table_bounded c →
  callbacks c !! (lastID c + 1) = None ∧ table_bounded (state_of (do_call k c)).
Proof.
  intros H0 Hmax Hb.
  pose proof (do_call_id k c H0 Hmax) as Hid. unfold do_call in *.
  destruct (sendMessageToServer_state (call_heap k) (call_guid k) (call_method k)
              (call_params k) (call_noReply k) (call_now k) c)
    as (_ & _ & _ & _ & Hcb).
  simpl in *.
  assert (callbacks c !! (lastID c + 1) = None) as Hfree.
  { destruct (callbacks c !! (lastID c + 1)) as [pc|] eqn:Hpc; [|done].
    specialize (Hb (lastID c + 1) (ex_intro _ pc Hpc)). lia. }
  split; [done|].
  intros id Hsome. rewrite Hid.
  destruct Hcb as [Hcb|Hcb]; rewrite Hcb in Hsome.
  - specialize (Hb id Hsome). lia.
  - unfold stored in Hsome. rewrite Hid, Hfree in Hsome.
    destruct (decide (id = lastID c + 1)) as [->|Hne]; [lia|].
    rewrite lookup_insert_ne in Hsome by done. specialize (Hb id Hsome). lia.
Qed.

(** A new connection has its counter at zero and no callback. *)
Lemma newConnection_bounded hook :
  lastID (newConnection hook) = 0 ∧ table_bounded (newConnection hook).
Proof.
  split; [done|]. intros id [pc Hpc]. simpl in Hpc. by rewrite lookup_empty in Hpc.
Qed.

Section Runs.
Context `{Externals}.

(** [Dispatch] leaves the counter alone and at most removes the callback
    of the message's id. *)
Lemma Dispatch_state msg c :
  let c' := state_of (Dispatch msg c) in
  lastID c' = lastID c
  ∧ (callbacks c' = callbacks c ∨ callbacks c' = delete (ID msg) (callbacks c)).
Proof.
  unfold Dispatch, callbacks_LoadAndDelete, createRemoteObject, SetResult.
  destruct (decide (ID msg ≠ 0)) as [Hid|Hid]; run.
  - destruct (callbacks c !! ID msg) as [pc|]; run; [|auto].
    destruct (noReply pc); run; [auto|].
    destruct (MsgError msg); run; [auto|].
    destruct (replaceGuidsWithChannels (objects c) (Result msg)); run; auto.
  - repeat (case_match; run; simplify_eq; auto).
Qed.

Lemma Dispatch_bounded msg c :
  table_bounded c → table_bounded (state_of (Dispatch msg c)).
Proof.
  intros Hb id Hsome.
  destruct (Dispatch_state msg c) as (Hid & Hcb). simpl in *. rewrite Hid.
  destruct Hcb as [Hcb|Hcb]; rewrite Hcb in Hsome; [by apply Hb|].
  apply Hb. destruct (decide (ID msg = id)) as [<-|Hne].
  - rewrite lookup_delete_eq in Hsome. by destruct Hsome.
  - by rewrite lookup_delete_ne in Hsome.
Qed.

Lemma allocations_above ops : ∀ c,
  0 ≤ lastID c → lastID c + Z.of_nat (length (calls_in ops)) ≤ max_int →
  StronglySorted Z.lt (alloc_id <$> allocations ops c)
  ∧ Forall (λ a, lastID c < alloc_id a) (allocations ops c).
Proof.
  induction ops as [|[k|msg] ops IH]; intros c H0 Hmax; simpl in *.
  - split; constructor.
  - rewrite Nat2Z.inj_succ in Hmax.
    pose proof (do_call_id k c H0 ltac:(lia)) as Hid.
    destruct (IH (state_of (do_call k c)) ltac:(lia) ltac:(lia)) as (Hsorted & Hlow).
    rewrite Hid in *. split.
    + constructor; [done|]. apply Forall_fmap. by apply (Forall_impl _ _ _ Hlow).
    + constructor; [simpl; lia|]. apply (Forall_impl _ _ _ Hlow). intros a Ha. lia.
  - destruct (Dispatch_state msg c) as (Hid & _). simpl in Hid.
    specialize (IH (state_of (Dispatch msg c))). rewrite Hid in IH. by apply IH.
Qed.

Lemma allocations_new ops : ∀ c,
  0 ≤ lastID c → lastID c + Z.of_nat (length (calls_in ops)) ≤ max_int →
  table_bounded c →
  Forall (λ a, alloc_found a !! alloc_id a = None) (allocations ops c).
Proof.
  induction ops as [|[k|msg] ops IH]; intros c H0 Hmax Hb; simpl in *.
  - constructor.
  - rewrite Nat2Z.inj_succ in Hmax.
    pose proof (do_call_id k c H0 ltac:(lia)) as Hid.
    destruct (do_call_bounded k c H0 ltac:(lia) Hb) as (Hfree & Hb1).
    constructor; [simpl; by rewrite Hid|].
    apply IH; [lia|lia|done].
  - destruct (Dispatch_state msg c) as (Hid & _). simpl in Hid.
    apply IH; [lia|lia|by apply Dispatch_bounded].
Qed.

(** C6. On one connection, with inbound messages dispatched in between
    or not, the calls to [sendMessageToServer] take strictly increasing
    ids, all above the counter the run started from, as long as the
    counter does not pass the largest [int]; and when no callback is keyed
    above the counter at the start (as on a new connection), each id is
    absent from the callback table at the moment it is taken. *)
Theorem ids_strictly_increasing (ops : list op) (c : connection) :
  0 ≤ lastID c → lastID c + Z.of_nat (length (calls_in ops)) ≤ max_int →
  StronglySorted Z.lt (alloc_id <$> allocations ops c)
  ∧ Forall (λ a, lastID c < alloc_id a) (allocations ops c)
  ∧ (table_bounded c →
     Forall (λ a, alloc_found a !! alloc_id a = None) (allocations ops c)).
Proof.
  intros H0 Hmax.
  destruct (allocations_above ops c H0 Hmax) as (Hsorted & Hlow).
  split; [done|]. split; [done|]. by apply allocations_new.
Qed.
End Runs.

Lemma ids_strictly_increasing_witness :
  let ops :=
    [ OpSend {| call_heap := page_heap; call_guid := "page@1"; call_method := "goto";
                call_params := VMap {[ "url" := VStr "about:blank" ]};
                call_noReply := false; call_now := 10 |};
      OpSend {| call_heap := page_heap; call_guid := "page@1"; call_method := "close";
                call_params := VNil; call_noReply := true; call_now := 20 |};
      OpDispatch {| ID := 1; GUID := EmptyString; Method := EmptyString; Params := ∅; Result := VNil;
                    MsgError := None |};
      OpSend {| call_heap := page_heap; call_guid := "page@1"; call_method := "click";
                call_params := VChan 9%positive; call_noReply := false; call_now := 30 |} ] in
  alloc_id <$> allocations (H := plain_externals) ops live = [1; 2; 3]
  ∧ StronglySorted Z.lt (alloc_id <$> allocations (H := plain_externals) ops live)
  ∧ Forall (λ a, alloc_found a !! alloc_id a = None)
           (allocations (H := plain_externals) ops live).
Proof.
  intros ops. split; [by vm_compute|].
  assert (0 ≤ lastID live) as H0 by (simpl; lia).
  assert (lastID live + Z.of_nat (length (calls_in ops)) ≤ max_int) as Hmax
    by (vm_compute; discriminate).
  destruct (ids_strictly_increasing (H := plain_externals) ops live H0 Hmax)
    as (Hsorted & _ & Hnew).
  split; [exact Hsorted|]. apply Hnew.
  intros id [pc Hpc]. simpl in Hpc. by rewrite lookup_empty in Hpc.
Defined.

Section Callers.
Context `{Externals}.

Lemma WrapAPICall_staged {A} (cb : M A) isInternal c :
  WrapAPICall cb isInternal c = cb (staged isInternal c).
Proof. unfold WrapAPICall, staged. run. by destruct (apiZone c). Qed.

Lemma staged_apiZone isInternal c :
  apiZone (staged isInternal c)
  = Some (default (serializeCallStack isInternal) (apiZone c)).
Proof. unfold staged. by destruct (apiZone c) eqn:Hz. Qed.

Lemma staged_fields isInternal c :
  trace (staged isInternal c) = trace c ∧ lastID (staged isInternal c) = lastID c.
Proof. unfold staged. by destruct (apiZone c). Qed.

(** C8. The metadata staged by [WrapAPICall] (the one already staged
    when the call is nested, else the one captured now) goes into the
    envelope of the first [sendMessageToServer], which clears the slot;
    a second send with nothing staged anew carries no metadata but the
    wall time. A [WrapAPICall] nested in another, or entered while
    metadata is staged, leaves the staged metadata in place. *)
Theorem metadata_consumed_once h1 g1 m1 p1 f1 t1 h2 g2 m2 p2 f2 t2
    isInternal c out1 c1 out2 c2 :
  WrapAPICall (sendMessageToServer h1 g1 m1 p1 f1 t1) isInternal c = Done out1 c1 →
  sendMessageToServer h2 g2 m2 p2 f2 t2 c1 = Done out2 c2 →
  apiZone c1 = None
  ∧ (∃ e1 e2,
       sent (trace c2) = sent (trace c) ++ [e1; e2]
       ∧ env_metadata e1
         = <["wallTime" := VInt t1]>
             (metadata (default (serializeCallStack isInternal) (apiZone c)))
       ∧ env_metadata e2 = {[ "wallTime" := VInt t2 ]})
  ∧ (∀ A (cb : M A) inner,
       WrapAPICall (WrapAPICall cb inner) isInternal c = WrapAPICall cb isInternal c)
  ∧ (∀ A (cb : M A) inner z, apiZone c = Some z → WrapAPICall cb inner c = cb c).
Proof.
  intros Hfirst Hsecond. rewrite WrapAPICall_staged in Hfirst.
  destruct (sendMessageToServer_Done _ _ _ _ _ _ _ _ _ Hfirst)
    as (w1 & s1 & _ & _ & Hsent1 & _ & Hzone1 & _).
  destruct (sendMessageToServer_Done _ _ _ _ _ _ _ _ _ Hsecond)
    as (w2 & s2 & _ & _ & Hsent2 & _ & _ & _).
  split; [done|]. split; [|split].
  - eexists _, _. split; [|split].
    + rewrite Hsent2, Hsent1, (proj1 (staged_fields isInternal c)), <-app_assoc. done.
    + simpl. by rewrite staged_apiZone.
    + simpl. by rewrite Hzone1, insert_empty.
  - intros A cb inner. rewrite !WrapAPICall_staged.
    f_equal. unfold staged at 1. by rewrite staged_apiZone.
  - intros A cb inner z Hz. rewrite WrapAPICall_staged. unfold staged. by rewrite Hz.
Qed.

(** What [innerSend] returns once the message is sent and [GetResult]
    has come back without error. *)
Lemma innerSend_Done h ch method returnAsDict options now w pick c cb c1 result :
  sendMessageToServer h (chan_guid ch) method (transformOptions options) false now c
    = Done (Some cb, None) c1 →
  GetResult cb w = (result, None) →
  innerSend h ch method returnAsDict options now w pick c =
    match result with
    | VNil => Done (VNil, None) c1
    | VMap mapV =>
        if returnAsDict then Done (result, None) c1
        else if decide (size mapV = 0%nat) then Done (VNil, None) c1
        else match range_first mapV pick with
             | Some v => Done (v, None) c1
             | None => Done (result, None) c1
             end
    | VStrMap _ => if returnAsDict then Done (result, None) c1 else Panic c1
    | _ => Done (result, None) c1
    end.
Proof.
  intros Hsend Hget. unfold innerSend.
  unfold mbind at 1, M_bind at 1. rewrite Hsend. run. rewrite Hget.
  destruct result, returnAsDict; run; repeat case_match; done.
Qed.

Lemma range_first_singleton k v pick : range_first {[ k := v ]} pick = Some v.
Proof.
  unfold range_first. rewrite map_to_list_singleton. cbn [length].
  by rewrite Nat.mod_1_r.
Qed.

(** C3, amended. A call whose message was sent and whose [GetResult]
    came back without error: through [Send], a nil result and an empty
    mapping give nil, and a mapping with one entry gives the value of
    that entry; through [SendReturnAsDict] the result is returned as it
    is: the whole mapping, an empty one too, and nil only when the
    result is nil. *)
Theorem send_result_unwrapped h ch method options now w pick c :
  (∀ cb c1 result,
     sendMessageToServer h (chan_guid ch) method (transformOptions options) false now
       (staged false c) = Done (Some cb, None) c1 →
     GetResult cb w = (result, None) →
     (result = VNil →
        Send h ch method options now w pick c = Done (VNil, None) c1)
     ∧ (result = VMap ∅ →
        Send h ch method options now w pick c = Done (VNil, None) c1)
     ∧ (∀ k v, result = VMap {[ k := v ]} →
        Send h ch method options now w pick c = Done (v, None) c1))
  ∧ (∀ cb c1 result,
     sendMessageToServer h (chan_guid ch) method (transformOptions options) false now
       (staged true c) = Done (Some cb, None) c1 →
     GetResult cb w = (result, None) →
     SendReturnAsDict h ch method options now w pick c = Done (result, None) c1).
Proof.
  split; intros cb c1 result Hsend Hget.
  - unfold Send. rewrite WrapAPICall_staged.
    rewrite (innerSend_Done _ _ _ _ _ _ _ _ _ _ _ _ Hsend Hget).
    split; [|split].
    + by intros ->.
    + intros ->. by rewrite decide_True by apply map_size_empty.
    + intros k v ->. rewrite decide_False by (by rewrite map_size_singleton).
      by rewrite range_first_singleton.
  - unfold SendReturnAsDict. rewrite WrapAPICall_staged.
    rewrite (innerSend_Done _ _ _ _ _ _ _ _ _ _ _ _ Hsend Hget).
    by destruct result.
Qed.
End Callers.

Lemma metadata_consumed_once_witness :
  let first := WrapAPICall (H := plain_externals)
                 (sendMessageToServer page_heap "page@1" "click" VNil false 10) false live in
  let second := sendMessageToServer page_heap "page@1" "title" VNil false 20
                  (state_of first) in
  first = Done (Some {| noReply := false |}, None) (state_of first)
  ∧ second = Done (Some {| noReply := false |}, None) (state_of second)
  ∧ ∃ e1 e2,
      sent (trace (state_of second)) = sent (trace live) ++ [e1; e2]
      ∧ env_metadata e1
        = <["wallTime" := VInt 10]>
            (metadata (default (serializeCallStack (Externals := plain_externals) false)
                               (apiZone live)))
      ∧ env_metadata e2 = {[ "wallTime" := VInt 20 ]}.
Proof.
  intros first second.
  assert (first = Done (Some {| noReply := false |}, None) (state_of first)) as Hfirst
    by (vm_compute; reflexivity).
  assert (second = Done (Some {| noReply := false |}, None) (state_of second)) as Hsecond
    by (vm_compute; reflexivity).
  split; [exact Hfirst|]. split; [exact Hsecond|].
  apply (metadata_consumed_once (H := plain_externals) _ _ _ _ _ _ _ _ _ _ _ _ _ _ _ _ _ _
           Hfirst Hsecond).
Defined.

(** C3 does not hold on the raw path: a call through
    [SendReturnAsDict] whose result is the empty mapping returns the
    empty mapping and not nil, [innerSend] testing [returnAsDict] before
    it looks at the size of the mapping; the same reply through [Send]
    gives nil. *)
Lemma raw_empty_mapping_returned :
  let page := {| chan_guid := "page@1" |} in
  let reply := Received {| Data := VMap ∅; Error := None |} in
  let raw := SendReturnAsDict (H := plain_externals) page_heap page "title" [] 0 reply 0
               live in
  let convenient := Send (H := plain_externals) page_heap page "title" [] 0 reply 0 live in
  raw = Done (VMap ∅, None) (state_of raw)
  ∧ raw ≠ Done (VNil, None) (state_of raw)
  ∧ convenient = Done (VNil, None) (state_of convenient).
Proof.
  intros page reply raw convenient.
  assert (raw = Done (VMap ∅, None) (state_of raw)) as Hraw by (vm_compute; reflexivity).
  split; [exact Hraw|]. split.
  - rewrite Hraw at 1. intros Heq. injection Heq as Heq. discriminate Heq.
  - vm_compute. reflexivity.
Qed.

Lemma send_result_unwrapped_witness :
  let page := {| chan_guid := "page@1" |} in
  let reply := Received {| Data := VMap {[ "value" := VInt 42 ]}; Error := None |} in
  let sent_on isInternal :=
    sendMessageToServer page_heap "page@1" "title"
      (transformOptions (Externals := plain_externals) []) false 0
      (staged (H := plain_externals) isInternal live) in
  sent_on false = Done (Some {| noReply := false |}, None) (state_of (sent_on false))
  ∧ sent_on true = Done (Some {| noReply := false |}, None) (state_of (sent_on true))
  ∧ GetResult {| noReply := false |} reply = (VMap {[ "value" := VInt 42 ]}, None)
  ∧ Send (H := plain_externals) page_heap page "title" [] 0 reply 0 live
    = Done (VInt 42, None) (state_of (sent_on false))
  ∧ SendReturnAsDict (H := plain_externals) page_heap page "title" [] 0 reply 0 live
    = Done (VMap {[ "value" := VInt 42 ]}, None) (state_of (sent_on true)).
Proof.
  intros page reply sent_on.
  assert (sent_on false = Done (Some {| noReply := false |}, None) (state_of (sent_on false)))
    as Hsent by (vm_compute; reflexivity).
  assert (sent_on true = Done (Some {| noReply := false |}, None) (state_of (sent_on true)))
    as Hraw by (vm_compute; reflexivity).
  split; [exact Hsent|]. split; [exact Hraw|]. split; [reflexivity|].
  destruct (send_result_unwrapped (H := plain_externals) page_heap page "title" [] 0 reply
              0%nat live) as [Hsend Hdict].
  split.
  - destruct (Hsend _ _ _ Hsent eq_refl) as (_ & _ & Hone).
    apply (Hone "value" (VInt 42) eq_refl).
  - apply (Hdict _ _ _ Hraw eq_refl).
Defined.

(** * Further properties *)

(** ** The codec on arbitrary values *)

Lemma map_sequence_Some_inv {A} (m : gmap string (option A)) m' :
  map_sequence m = Some m' → m = Some <$> m'.
Proof.
  unfold map_sequence. revert m'.
  apply (map_fold_weak_ind (λ r m, ∀ m', r = Some m' → m = Some <$> m')).
  - intros m' [= <-]. by rewrite fmap_empty.
  - intros i x m0 r Hi IH m' Hr.
    destruct r as [r'|]; simpl in Hr; [|done].
    destruct x as [a|]; simpl in Hr; [|done].
    injection Hr as <-. rewrite fmap_insert. by rewrite <-(IH r' eq_refl).
Qed.

(** The entries of a traversed mapping are the images of the entries of
    the mapping, key by key. *)
Lemma map_sequence_fmap_lookup {A B} (f : A → option B) (m : gmap string A) m' :
  map_sequence (f <$> m) = Some m' →
  ∀ k, (m !! k = None ∧ m' !! k = None)
       ∨ ∃ x y, m !! k = Some x ∧ m' !! k = Some y ∧ f x = Some y.
Proof.
  intros Hseq k. apply map_sequence_Some_inv in Hseq.
  apply (f_equal (λ m, m !! k)) in Hseq. rewrite !lookup_fmap in Hseq.
  destruct (m !! k) as [x|], (m' !! k) as [y|]; simplify_eq/=; eauto 10.
Qed.

Lemma map_sequence_is_Some {A} (m : gmap string (option A)) :
  map_Forall (λ _, is_Some) m → is_Some (map_sequence m).
Proof.
  intros Hm. exists (omap id m).
  rewrite <-map_sequence_fmap_Some. f_equal.
  apply map_eq. intros k. rewrite lookup_fmap, lookup_omap.
  destruct (m !! k) as [o|] eqn:Hk; [|done].
  destruct (Hm k o Hk) as [a ->]. done.
Qed.

Lemma decode_map_unfold objects m :
  replaceGuidsWithChannels objects (VMap m) =
    match m !! "guid" with
    | Some (VStr guid) =>
        match objects !! guid with
        | Some owner => Some (VChan (owner_channel owner))
        | None => VMap <$> map_sequence (replaceGuidsWithChannels objects <$> m)
        end
    | Some _ => None
    | None => VMap <$> map_sequence (replaceGuidsWithChannels objects <$> m)
    end.
Proof. done. Qed.

Lemma decode_list_unfold objects l :
  replaceGuidsWithChannels objects (VList l)
  = VList <$> mapM (replaceGuidsWithChannels objects) l.
Proof. done. Qed.

Lemma decode_walk_fixed objects m m' :
  map_Forall (λ _ x, ∀ d, replaceGuidsWithChannels objects x = Some d →
                          replaceGuidsWithChannels objects d = Some d) m →
  map_sequence (replaceGuidsWithChannels objects <$> m) = Some m' →
  map_sequence (replaceGuidsWithChannels objects <$> m') = Some m'.
Proof.
  intros IH Hm'. rewrite <-map_sequence_fmap_Some. f_equal.
  apply map_eq. intros k. rewrite !lookup_fmap.
  destruct (map_sequence_fmap_lookup _ _ _ Hm' k) as [[_ ->]|(x & y & Hx & -> & Hxy)];
    [done|].
  simpl. f_equal. by apply (IH k x Hx).
Qed.

(** X1. Whatever [replaceChannelsWithGuids] returns holds no channel
    reference, at any depth: no live pointer is handed to the transport. *)
Theorem encode_never_leaks_channel (h : heap) (v : value) : ∀ w,
  replaceChannelsWithGuids h v = Some w → value_Forall not_channel w.
Proof.
  induction v as [| | | |p|l IH|m IH|m] using value_ind'; intros w Hw; simpl in Hw.
  - injection Hw as <-. by constructor.
  - injection Hw as <-. by constructor.
  - injection Hw as <-. by constructor.
  - injection Hw as <-. by constructor.
  - destruct (h !! p); simplify_eq/=. by constructor.
  - destruct (mapM (replaceChannelsWithGuids h) l) as [ws|] eqn:Hws; simplify_eq/=.
    apply vf_list; [done|]. apply mapM_Some in Hws.
    induction Hws as [|x y l ws Hxy _ IHws]; [constructor|].
    apply Forall_cons in IH as [IHx IHl]. constructor; auto.
  - destruct (map_sequence (replaceChannelsWithGuids h <$> m)) as [m'|] eqn:Hm';
      simplify_eq/=.
    apply vf_map; [done|]. intros k y Hy.
    destruct (map_sequence_fmap_lookup _ _ _ Hm' k) as [[_ Hn]|(x & y' & Hx & Hy' & Hxy)];
      [congruence|].
    simplify_eq. by apply (IH k x Hx).
  - injection Hw as <-. apply vf_map; [done|].
    intros k y Hy. rewrite lookup_fmap in Hy.
    destruct (m !! k); simplify_eq/=. by constructor.
Qed.

Lemma encode_never_leaks_channel_witness :
  replaceChannelsWithGuids page_heap nested_payload
    = Some (encoded page_heap nested_payload)
  ∧ value_Forall not_channel (encoded page_heap nested_payload).
Proof.
  assert (replaceChannelsWithGuids page_heap nested_payload
          = Some (encoded page_heap nested_payload)) as Henc by (vm_compute; reflexivity).
  split; [exact Henc|].
  apply (encode_never_leaks_channel page_heap nested_payload _ Henc).
Defined.

(** X2. [replaceChannelsWithGuids] returns exactly when every channel
    reference in the value points at a channel; it panics on the nil
    dereference otherwise, and on nothing else. *)
Theorem encode_succeeds_iff_live (h : heap) (v : value) :
  value_Forall (live_node h) v ↔ is_Some (replaceChannelsWithGuids h v).
Proof.
  induction v as [| | | |p|l IH|m IH|m] using value_ind'; simpl.
  1-4,8: split; [by eexists|intros _; by constructor].
  - split.
    + intros Hv. inversion Hv as [| | | |? [ch Hp]| | |]; subst. rewrite Hp. by eexists.
    + intros [w Hw]. constructor. simpl. destruct (h !! p); [by eexists|done].
  - split.
    + intros Hv. inversion Hv as [| | | | | |? _ Hl|]; subst.
      rewrite fmap_is_Some. apply mapM_is_Some.
      rewrite Forall_forall in IH, Hl |- *. intros x Hx. by apply IH, Hl.
    + intros Hw. rewrite fmap_is_Some in Hw. apply mapM_is_Some in Hw.
      apply vf_list; [done|].
      rewrite Forall_forall in IH, Hw |- *. intros x Hx. by apply IH, Hw.
  - split.
    + intros Hv. inversion Hv as [| | | | | | |? _ Hm]; subst.
      rewrite fmap_is_Some. apply map_sequence_is_Some.
      intros k o Hk. rewrite lookup_fmap in Hk.
      destruct (m !! k) as [x|] eqn:Hx; simplify_eq/=.
      by apply (IH k x Hx), (Hm k x Hx).
    + intros Hw. rewrite fmap_is_Some in Hw. destruct Hw as [m' Hm'].
      apply vf_map; [done|]. intros k x Hx.
      apply (IH k x Hx).
      destruct (map_sequence_fmap_lookup _ _ _ Hm' k) as [[Hn _]|(x' & y & Hx' & _ & Hxy)];
        [congruence|].
      simplify_eq. by eexists.
Qed.

Lemma encode_succeeds_iff_live_witness :
  is_Some (replaceChannelsWithGuids page_heap (VList [VChan 7%positive; VStr "ok"]))
  ∧ ¬ value_Forall (live_node page_heap) (VList [VChan 9%positive]).
Proof.
  split.
  - apply (proj1 (encode_succeeds_iff_live page_heap _)).
    apply vf_list; [done|].
    repeat apply Forall_cons_2; try apply Forall_nil_2; constructor; simpl; [|done].
    vm_compute. by eexists.
  - intros Hlive.
    apply (proj1 (encode_succeeds_iff_live page_heap _)) in Hlive.
    vm_compute in Hlive. by destruct Hlive.
Defined.

(** X3. [replaceGuidsWithChannels] is idempotent: a value it returned
    goes through it unchanged, so a payload decoded twice (the function
    overwrites its argument in place) is as decoded once. *)
Theorem decode_idempotent (objects : directory) (v : value) : ∀ d,
  replaceGuidsWithChannels objects v = Some d →
  replaceGuidsWithChannels objects d = Some d.
Proof.
  induction v as [| | | |p|l IH|m IH|m] using value_ind'; intros d Hd;
    try (simpl in Hd; by simplify_eq).
  - rewrite decode_list_unfold in Hd.
    destruct (mapM (replaceGuidsWithChannels objects) l) as [ds|] eqn:Hds;
      simpl in Hd; simplify_eq.
    rewrite decode_list_unfold.
    assert (mapM (replaceGuidsWithChannels objects) ds = Some ds) as ->; [|done].
    apply mapM_Some in Hds. apply mapM_Some.
    induction Hds as [|x y l ds Hxy _ IHds]; [constructor|].
    apply Forall_cons in IH as [IHx IHl]. constructor; auto.
  - rewrite decode_map_unfold in Hd.
    destruct (m !! "guid") as [g|] eqn:Hg.
    + destruct g as [| | |s| | | |]; try done.
      destruct (objects !! s) as [owner|] eqn:Hs; [by simplify_eq|].
      destruct (map_sequence (replaceGuidsWithChannels objects <$> m)) as [m'|] eqn:Hm';
        simpl in Hd; simplify_eq.
      rewrite decode_map_unfold, (decode_walk_fixed objects m m' IH Hm').
      destruct (map_sequence_fmap_lookup _ _ _ Hm' "guid")
        as [[Hn _]|(x & y & Hx & -> & Hxy)]; [congruence|].
      simplify_eq. simpl in Hxy. simplify_eq. by rewrite Hs.
    + destruct (map_sequence (replaceGuidsWithChannels objects <$> m)) as [m'|] eqn:Hm';
        simpl in Hd; simplify_eq.
      rewrite decode_map_unfold, (decode_walk_fixed objects m m' IH Hm').
      destruct (map_sequence_fmap_lookup _ _ _ Hm' "guid")
        as [[_ ->]|(x & y & Hx & _ & _)]; [done|congruence].
Qed.

Lemma decode_idempotent_witness :
  let v := VMap (<["guid" := VStr "none"]>
                   {[ "page" := VList [VMap {[ "guid" := VStr "page@1" ]}] ]}) in
  let d := VMap (<["guid" := VStr "none"]> {[ "page" := VList [VChan 7%positive] ]}) in
  replaceGuidsWithChannels (objects live) v = Some d
  ∧ replaceGuidsWithChannels (objects live) d = Some d.
Proof.
  intros v d.
  assert (replaceGuidsWithChannels (objects live) v = Some d) as Hd
    by (vm_compute; reflexivity).
  split; [exact Hd|].
  apply (decode_idempotent (objects live) v d Hd).
Defined.

(** X4. On a payload as the JSON decoder builds it (nil, booleans,
    numbers, strings, [[]interface{}] and [map[string]interface{}]),
    with or without channel references in it,
    [replaceGuidsWithChannels] returns whenever each mapping with a
    "guid" entry holds a string there: on such payloads the assertion
    [guid.(string)] is its only panic, and it does panic on a mapping
    whose "guid" entry is no string. Slices and maps of other types, on
    which the assertions to [[]interface{}] and to
    [map[string]interface{}] panic, are no such payloads; on the one
    [value] has, a [map[string]string], the function panics. *)
Theorem decode_total_on_decodable (objects : directory) (v : value) :
  (value_Forall decodable_node v → is_Some (replaceGuidsWithChannels objects v))
  ∧ (∀ m g, v = VMap m → m !! "guid" = Some g → (∀ s, g ≠ VStr s) →
       replaceGuidsWithChannels objects v = None)
  ∧ (∀ m, v = VStrMap m → replaceGuidsWithChannels objects v = None).
Proof.
  split; [|split].
  - induction v as [| | | |p|l IH|m IH|m] using value_ind'; intros Hv;
      try (by eexists).
    + inversion Hv as [| | | | | |? _ Hl|]; subst.
      rewrite decode_list_unfold, fmap_is_Some. apply mapM_is_Some.
      rewrite Forall_forall in IH, Hl |- *. intros x Hx. by apply IH, Hl.
    + inversion Hv as [| | | | | | |? Hnode Hm]; subst.
      assert (is_Some (VMap <$> map_sequence (replaceGuidsWithChannels objects <$> m)))
        as Hwalk.
      { rewrite fmap_is_Some. apply map_sequence_is_Some.
        intros k o Hk. rewrite lookup_fmap in Hk.
        destruct (m !! k) as [x|] eqn:Hx; simplify_eq/=.
        by apply (IH k x Hx), (Hm k x Hx). }
      rewrite decode_map_unfold. simpl in Hnode.
      destruct (m !! "guid") as [[| | |s| | | |]|]; try done.
      destruct (objects !! s); [by eexists|done].
    + inversion Hv as [| | | | |? Hnode| |]; subst. done.
  - intros m g -> Hg Hstr. rewrite decode_map_unfold, Hg.
    destruct g as [| | |s| | | |]; try done. by destruct (Hstr s).
  - by intros m ->.
Qed.

Lemma decode_total_on_decodable_witness :
  let v := VList [VMap {[ "guid" := VStr "none" ]}; VChan 3%positive; VNil] in
  let untyped := VMap {[ "guid" := VInt 7 ]} in
  let typed := VStrMap {[ "guid" := "page@1" ]} in
  (value_Forall decodable_node v ∧ is_Some (replaceGuidsWithChannels (objects live) v))
  ∧ replaceGuidsWithChannels (objects live) untyped = None
  ∧ replaceGuidsWithChannels (objects live) typed = None.
Proof.
  intros v untyped typed.
  assert (value_Forall decodable_node v) as Hv.
  { apply vf_list; [done|].
    repeat apply Forall_cons_2; try apply Forall_nil_2; try (by constructor).
    apply vf_map; [by vm_compute|].
    apply map_Forall_singleton. by constructor. }
  split; [|split].
  - split; [exact Hv|].
    destruct (decode_total_on_decodable (objects live) v) as (Hret & _ & _).
    apply (Hret Hv).
  - destruct (decode_total_on_decodable (objects live) untyped) as (_ & Hguid & _).
    apply (Hguid {[ "guid" := VInt 7 ]} (VInt 7) eq_refl).
    + by vm_compute.
    + intros s Hs. discriminate Hs.
  - destruct (decode_total_on_decodable (objects live) typed) as (_ & _ & Htyped).
    apply (Htyped {[ "guid" := "page@1" ]} eq_refl).
Defined.

(** ** Responses and notifications *)

Lemma emitted_app t1 t2 : emitted (t1 ++ t2) = emitted t1 ++ emitted t2.
Proof. apply omap_app. Qed.

Lemma forwarded_app t1 t2 : forwarded (t1 ++ t2) = forwarded t1 ++ forwarded t2.
Proof. apply omap_app. Qed.

Lemma closes_app t1 t2 : closes (t1 ++ t2) = (closes t1 + closes t2)%nat.
Proof. unfold closes. by rewrite omap_app, length_app. Qed.

Ltac count_closes :=
  simpl; rewrite ?closes_app; unfold closes; simpl; try done; try lia.

Section Responses.
Context `{Externals}.

(** What [Dispatch] does with a response whose callback is in the table. *)
Lemma Dispatch_response msg c pc :
  ID msg ≠ 0 → callbacks c !! ID msg = Some pc →
  Dispatch msg c =
    let c1 := set_callbacks (delete (ID msg) (callbacks c)) c in
    if noReply pc then Done tt c1
    else match MsgError msg with
         | Some e =>
             Done tt (set_trace (trace c ++ [Offer (ID msg)
                        {| Data := VNil; Error := Some (parseError e) |}]) c1)
         | None =>
             match replaceGuidsWithChannels (objects c) (Result msg) with
             | Some d =>
                 Done tt (set_trace (trace c ++ [Offer (ID msg)
                            {| Data := d; Error := None |}]) c1)
             | None => Panic c1
             end
         end.
Proof.
  intros Hid Hcb. unfold Dispatch, callbacks_LoadAndDelete, SetResult.
  rewrite decide_True by done. run. rewrite Hcb. run.
  destruct (noReply pc); run; [done|].
  destruct (MsgError msg); run; [done|].
  destruct (replaceGuidsWithChannels (objects c) (Result msg)); run; done.
Qed.

(** X5. Request and response are matched by id, once. After a call that
    found its id free, the response carrying that id takes the callback
    out of the table (which is as before the call), offers the decoded
    result to the callback the caller holds, whose [GetResult] returns
    it; the same response dispatched again finds no callback and makes
    [Dispatch] panic. *)
Theorem response_resolves_once h guid method params now c cb c1 msg d :
  0 ≤ lastID c → lastID c < max_int →
  callbacks c !! (lastID c + 1) = None →
  sendMessageToServer h guid method params false now c = Done (Some cb, None) c1 →
  ID msg = lastID c + 1 → MsgError msg = None →
  replaceGuidsWithChannels (objects c1) (Result msg) = Some d →
  let r := {| Data := d; Error := None |} in
  let c2 := set_trace (trace c1 ++ [Offer (ID msg) r]) (set_callbacks (callbacks c) c1) in
  (∃ e, sent (trace c1) = sent (trace c) ++ [e] ∧ env_id e = ID msg)
  ∧ Dispatch msg c1 = Done tt c2
  ∧ GetResult cb (Received r) = (d, None)
  ∧ Dispatch msg c2 = Panic c2.
Proof.
  intros H0 Hmax Hfree Hsend Hid Herr Hdec r c2.
  destruct (sendMessageToServer_Done _ _ _ _ _ _ _ _ _ Hsend)
    as (wire & send & _ & _ & Hsent & _ & _ & Hcb & Hout).
  rewrite wrap_int_succ in * by done. simpl in Hsent.
  unfold stored in Hcb. rewrite Hfree in Hcb.
  assert (callbacks c1 !! ID msg = Some {| noReply := false |}) as Hlook.
  { by rewrite Hid, Hcb, lookup_insert_eq. }
  assert (ID msg ≠ 0) as Hnz by lia.
  destruct (send _) as [err|]; [done|]. rewrite <-Hid, Hlook in Hout.
  injection Hout as ->.
  split; [|split; [|split]].
  - eexists. split; [exact Hsent|]. simpl. rewrite wrap_int_succ by done. done.
  - rewrite (Dispatch_response msg c1 _ Hnz Hlook). simpl. rewrite Herr, Hdec.
    unfold c2. do 2 f_equal. by rewrite Hcb, Hid, delete_insert_id.
  - done.
  - apply Dispatch_unknown_id; [done|]. simpl. by rewrite Hid.
Qed.

(** X6. A response that carries a remote error resolves the waiting
    callback with the parsed error and no data, without looking at the
    result field; the callback leaves the table. *)
Theorem error_response_reaches_caller msg c pc e :
  ID msg ≠ 0 → callbacks c !! ID msg = Some pc → noReply pc = false →
  MsgError msg = Some e →
  let r := {| Data := VNil; Error := Some (parseError e) |} in
  Dispatch msg c =
    Done tt (set_trace (trace c ++ [Offer (ID msg) r])
               (set_callbacks (delete (ID msg) (callbacks c)) c))
  ∧ GetResult pc (Received r) = (VNil, Some (parseError e)).
Proof.
  intros Hid Hcb Hreply Herr r.
  rewrite (Dispatch_response msg c pc Hid Hcb). simpl. rewrite Hreply, Herr.
  split; [done|]. unfold GetResult. by rewrite Hreply.
Qed.

(** X7. [SendNoReply] leaves a callback flagged [noReply] under the id it
    took, whether the write succeeded or not; the response for that id,
    whatever it carries, is discarded: [Dispatch] offers nothing and
    hands the callback table back as it was before the call. *)
Theorem noReply_response_discarded h ch method options now c err c1 msg :
  0 ≤ lastID c → lastID c < max_int →
  callbacks c !! (lastID c + 1) = None →
  SendNoReply h ch method options now c = Done err c1 →
  ID msg = lastID c + 1 →
  callbacks c1 !! ID msg = Some {| noReply := true |}
  ∧ Dispatch msg c1 = Done tt (set_callbacks (callbacks c) c1).
Proof.
  intros H0 Hmax Hfree Hsend Hid.
  unfold SendNoReply in Hsend.
  unfold mbind at 1, M_bind at 1 in Hsend. rewrite WrapAPICall_staged in Hsend.
  destruct (sendMessageToServer h (chan_guid ch) method (transformOptions options) true now
              (staged false c)) as [[cb err'] c1'|] eqn:Hrun; [|done].
  run. simplify_eq.
  destruct (sendMessageToServer_Done _ _ _ _ _ _ _ _ _ Hrun)
    as (wire & send & _ & _ & _ & _ & _ & Hcb & _).
  assert (lastID (staged false c) = lastID c ∧ callbacks (staged false c) = callbacks c)
    as [Hl Hc] by (unfold staged; by destruct (apiZone c)).
  rewrite Hl, Hc, wrap_int_succ in Hcb by done.
  unfold stored in Hcb. rewrite Hfree in Hcb.
  assert (callbacks c1 !! ID msg = Some {| noReply := true |}) as Hlook.
  { by rewrite Hid, Hcb, lookup_insert_eq. }
  split; [done|].
  rewrite (Dispatch_response msg c1 _ ltac:(lia) Hlook). simpl.
  by rewrite Hcb, Hid, delete_insert_id.
Qed.

(** What [Dispatch] leaves alone. *)
Lemma Dispatch_frame msg c :
  let c' := state_of (Dispatch msg c) in
  sent (trace c') = sent (trace c)
  ∧ apiZone c' = apiZone c
  ∧ tracingCount c' = tracingCount c
  ∧ (ID msg ≠ 0 → objects c' = objects c ∧ emitted (trace c') = emitted (trace c)).
Proof.
  unfold Dispatch, callbacks_LoadAndDelete, createRemoteObject, SetResult.
  destruct (decide (ID msg ≠ 0)) as [Hid|Hid]; run.
  - destruct (callbacks c !! ID msg) as [pc|]; run; [|done].
    destruct (noReply pc); run; [done|].
    destruct (MsgError msg); run.
    { rewrite sent_app, emitted_app. simpl. by rewrite !app_nil_r. }
    destruct (replaceGuidsWithChannels (objects c) (Result msg)); run; [|done].
    rewrite sent_app, emitted_app. simpl. by rewrite !app_nil_r.
  - repeat (case_match; run; simplify_eq; try done).
    all: rewrite ?sent_app; simpl; rewrite ?app_nil_r; done.
Qed.

(** X8. [Dispatch] never writes to the transport, never takes an id and
    never touches the staged metadata or the tracing counter, whatever
    the message and also when it panics; and a message with a non-zero
    id, handled as a response, changes no entry of the object directory
    and reaches no event emitter, whatever guid and method it carries. *)
Theorem Dispatch_never_sends msg c :
  let c' := state_of (Dispatch msg c) in
  sent (trace c') = sent (trace c)
  ∧ lastID c' = lastID c
  ∧ apiZone c' = apiZone c
  ∧ tracingCount c' = tracingCount c
  ∧ (ID msg ≠ 0 → objects c' = objects c ∧ emitted (trace c') = emitted (trace c)).
Proof.
  destruct (Dispatch_frame msg c) as (Hsent & Hzone & Htr & Hresp).
  destruct (Dispatch_state msg c) as (Hid & _). simpl in *. auto.
Qed.

(** X9. No event is emitted for a response, for one of the three control
    verbs (also when the owner is a "JsonPipe"), or for an owner the
    directory does not know: the emitters are reached by notifications
    with another method to a registered owner only. *)
Theorem Dispatch_emits_only_events msg c :
  (ID msg ≠ 0 ∨ Method msg = "__create__" ∨ Method msg = "__adopt__"
   ∨ Method msg = "__dispose__" ∨ objects c !! GUID msg = None) →
  emitted (trace (state_of (Dispatch msg c))) = emitted (trace c).
Proof.
  intros Hcase.
  destruct (decide (ID msg ≠ 0)) as [Hid|Hid].
  { by apply Dispatch_frame. }
  unfold Dispatch, createRemoteObject.
  rewrite decide_False by done. run.
  destruct (decide (Method msg = "__create__")) as [Hc|Hc]; run.
  { repeat (case_match; run; simplify_eq; try done).
    rewrite emitted_app. simpl. by rewrite app_nil_r. }
  destruct (objects c !! GUID msg) as [object|] eqn:Hobj; run; [|done].
  destruct (decide (Method msg = "__adopt__")) as [Ha|Ha]; run.
  { repeat (case_match; run; simplify_eq; try done).
    rewrite emitted_app. simpl. by rewrite app_nil_r. }
  destruct (decide (Method msg = "__dispose__")) as [Hd|Hd]; run.
  { rewrite emitted_app. simpl. by rewrite app_nil_r. }
  destruct Hcase as [?|[?|[?|[?|?]]]]; done.
Qed.

(** X10. A notification other than a creation is dropped, the connection
    left as it was, when the addressed owner is not in the directory; and
    so is an adoption whose child is not in the directory. *)
Theorem Dispatch_dropped msg c :
  ID msg = 0 → Method msg ≠ "__create__" →
  (objects c !! GUID msg = None → Dispatch msg c = Done tt c)
  ∧ (∀ guid, Method msg = "__adopt__" → is_Some (objects c !! GUID msg) →
       Params msg !! "guid" = Some (VStr guid) → objects c !! guid = None →
       Dispatch msg c = Done tt c).
Proof.
  intros Hid Hc. split.
  - by apply Dispatch_unknown_owner.
  - intros guid Ha [object Hobj] Hguid Hchild. unfold Dispatch.
    rewrite decide_False by (intros ?; done). run.
    rewrite (decide_False (P := Method msg = "__create__")) by done.
    rewrite Hobj, (decide_True (P := Method msg = "__adopt__")) by done.
    rewrite Hguid. run. by rewrite Hchild.
Qed.
End Responses.

Lemma response_resolves_once_witness :
  let sending := sendMessageToServer page_heap "page@1" "newContext" VNil false 5 live in
  let msg := {| ID := 1; GUID := EmptyString; Method := EmptyString; Params := ∅;
                Result := VMap {[ "context" := VMap {[ "guid" := VStr "page@1" ]} ]};
                MsgError := None |} in
  let r := {| Data := VMap {[ "context" := VChan 7%positive ]}; Error := None |} in
  sending = Done (Some {| noReply := false |}, None) (state_of sending)
  ∧ Dispatch (H := plain_externals) msg (state_of sending)
    = Done tt (set_trace (trace (state_of sending) ++ [Offer 1 r])
                 (set_callbacks (callbacks live) (state_of sending)))
  ∧ GetResult {| noReply := false |} (Received r)
    = (VMap {[ "context" := VChan 7%positive ]}, None).
Proof.
  intros sending msg r.
  assert (sending = Done (Some {| noReply := false |}, None) (state_of sending)) as Hsend
    by (vm_compute; reflexivity).
  assert (replaceGuidsWithChannels (objects (state_of sending)) (Result msg)
          = Some (VMap {[ "context" := VChan 7%positive ]})) as Hdec
    by (vm_compute; reflexivity).
  split; [exact Hsend|].
  destruct (response_resolves_once (H := plain_externals) page_heap "page@1" "newContext"
              VNil 5 live _ _ msg _ ltac:(simpl; lia) ltac:(by vm_compute) eq_refl
              Hsend eq_refl eq_refl Hdec) as (_ & Hdisp & Hget & _).
  split; [exact Hdisp|exact Hget].
Defined.

Lemma error_response_reaches_caller_witness :
  let c := set_callbacks {[ 3 := {| noReply := false |} ]} live in
  let e := {| err_name := "TimeoutError"; err_message := "timeout"; err_stack := "at x" |} in
  let msg := {| ID := 3; GUID := EmptyString; Method := EmptyString; Params := ∅;
                Result := VStrMap ∅; MsgError := Some e |} in
  callbacks c !! ID msg = Some {| noReply := false |}
  ∧ GetResult {| noReply := false |}
      (Received {| Data := VNil;
                   Error := Some (parseError (Externals := plain_externals) e) |})
    = (VNil, Some (ErrRemote "TimeoutError" "timeout" "at x")).
Proof.
  intros c e msg.
  assert (callbacks c !! ID msg = Some {| noReply := false |}) as Hcb by reflexivity.
  split; [exact Hcb|].
  apply (error_response_reaches_caller (H := plain_externals) msg c _ e
           ltac:(done) Hcb eq_refl eq_refl).
Defined.

Lemma noReply_response_discarded_witness :
  let page := {| chan_guid := "page@1" |} in
  let sending := SendNoReply (H := plain_externals) page_heap page "close" [] 5 live in
  let msg := {| ID := 1; GUID := EmptyString; Method := EmptyString; Params := ∅;
                Result := VStrMap ∅; MsgError := None |} in
  sending = Done None (state_of sending)
  ∧ Dispatch (H := plain_externals) msg (state_of sending)
    = Done tt (set_callbacks (callbacks live) (state_of sending)).
Proof.
  intros page sending msg.
  assert (sending = Done None (state_of sending)) as Hsend by (vm_compute; reflexivity).
  split; [exact Hsend|].
  apply (noReply_response_discarded (H := plain_externals) page_heap page "close" [] 5 live
           None (state_of sending) msg ltac:(simpl; lia) ltac:(by vm_compute) eq_refl
           Hsend eq_refl).
Defined.

Lemma Dispatch_emits_only_events_witness :
  let msg := {| ID := 0; GUID := "pipe@1"; Method := "__dispose__"; Params := ∅;
                Result := VNil; MsgError := None |} in
  Method msg = "__dispose__"
  ∧ emitted (trace (state_of (Dispatch (H := plain_externals) msg live)))
    = emitted (trace live).
Proof.
  intros msg. split; [reflexivity|].
  apply (Dispatch_emits_only_events (H := plain_externals) msg live).
  right. right. right. left. reflexivity.
Defined.

Lemma Dispatch_dropped_witness :
  let msg := {| ID := 0; GUID := "frame@gone"; Method := "navigated";
                Params := {[ "url" := VStr "about:blank" ]};
                Result := VNil; MsgError := None |} in
  objects live !! GUID msg = None
  ∧ Dispatch (H := plain_externals) msg live = Done tt live.
Proof.
  intros msg.
  assert (objects live !! GUID msg = None) as Hobj by reflexivity.
  split; [exact Hobj|].
  destruct (Dispatch_dropped (H := plain_externals) msg live eq_refl ltac:(done))
    as [Hgone _].
  apply (Hgone Hobj).
Defined.

(** ** Writing to the transport *)

(** The run of [sendMessageToServer] once the parameters are encoded and
    a transport is attached. *)
Lemma sendMessageToServer_run h guid method params flag now c wire send :
  replaceChannelsWithGuids h params = Some wire → onmessage c = Some send →
  let id := wrap_int (lastID c + 1) in
  let e := envelope_of guid method wire now c in
  let c1 := set_trace (trace c ++ [CallOnMessage e])
              (set_callbacks (stored id (newProtocolCallback flag) (callbacks c))
                 (set_apiZone None (set_lastID id c))) in
  sendMessageToServer h guid method params flag now c =
    match send e with
    | Some err => Done (None, Some (ErrWrap "could not send message" err)) c1
    | None =>
        Done (stored id (newProtocolCallback flag) (callbacks c) !! id, None)
          (if decide (0 < tracingCount c ∧ (0 < length (staged_frames c))%nat
                      ∧ guid ≠ "localUtils")
           then set_trace (trace c1 ++ [CallAddStackToTracingNoReply id (staged_frames c)]) c1
           else c1)
    end.
Proof.
  intros Hwire Hsend.
  unfold sendMessageToServer, callbacks_LoadOrStore, apiZone_LoadAndDelete, stored,
    envelope_of, staged_frames.
  run.
  destruct (apiZone c) as [z|] eqn:Hz; run; rewrite Hwire; run;
  (destruct (callbacks c !! wrap_int (lastID c + 1)) as [pc|] eqn:Hpc; run;
   rewrite Hsend; run;
   (destruct (send _) as [err|] eqn:He; run; [done|]);
   destruct (decide _) as [Hfw|Hfw]; run;
   rewrite ?lookup_insert_eq, ?Hpc; done).
Qed.

(** A call on a connection with no transport attached. *)
Lemma no_transport h guid method params flag now c :
  onmessage c = None →
  let out := sendMessageToServer h guid method params flag now c in
  out = Panic (state_of out)
  ∧ trace (state_of out) = trace c
  ∧ lastID (state_of out) = wrap_int (lastID c + 1)
  ∧ (is_Some (replaceChannelsWithGuids h params) →
     is_Some (callbacks (state_of out) !! wrap_int (lastID c + 1))).
Proof.
  intros Hnil.
  unfold sendMessageToServer, callbacks_LoadOrStore, apiZone_LoadAndDelete. run.
  destruct (apiZone c) as [z|]; run;
    (destruct (replaceChannelsWithGuids h params) as [wire|]; run;
     [|by repeat split; try done; intros [? ?]]);
    (destruct (callbacks c !! wrap_int (lastID c + 1)) as [pc|] eqn:Hpc; run;
     rewrite Hnil; run; repeat split; try done; intros _;
     by rewrite ?Hpc, ?lookup_insert_eq).
Qed.

(** X11. When the transport refuses the envelope, [sendMessageToServer]
    returns no callback and the error wrapped as "could not send
    message"; the id is spent, the callback stays in the table under it,
    the staged metadata is consumed, and nothing is handed to the tracing
    sink, also while tracing is on. *)
Theorem write_failure h guid method params flag now c wire send err :
  replaceChannelsWithGuids h params = Some wire → onmessage c = Some send →
  send (envelope_of guid method wire now c) = Some err →
  let id := wrap_int (lastID c + 1) in
  let c' := state_of (sendMessageToServer h guid method params flag now c) in
  sendMessageToServer h guid method params flag now c
    = Done (None, Some (ErrWrap "could not send message" err)) c'
  ∧ trace c' = trace c ++ [CallOnMessage (envelope_of guid method wire now c)]
  ∧ lastID c' = id
  ∧ is_Some (callbacks c' !! id)
  ∧ apiZone c' = None.
Proof.
  intros Hwire Hsend Herr.
  rewrite (sendMessageToServer_run _ _ _ _ _ _ _ _ _ Hwire Hsend), Herr. simpl.
  repeat split. apply stored_lookup.
Qed.

(** X12. On a connection with no [onmessage] installed, as [newConnection]
    returns it, every [sendMessageToServer] panics; nothing is written,
    yet the id is spent and, when the parameters encode, the callback is
    left in the table. *)
Theorem no_transport_panics h guid method params flag now c :
  onmessage c = None →
  let out := sendMessageToServer h guid method params flag now c in
  out = Panic (state_of out)
  ∧ trace (state_of out) = trace c
  ∧ lastID (state_of out) = wrap_int (lastID c + 1)
  ∧ (is_Some (replaceChannelsWithGuids h params) →
     is_Some (callbacks (state_of out) !! wrap_int (lastID c + 1))).
Proof. apply no_transport. Qed.

(** X13. The captured stack goes to the tracing sink only for a call
    that was written, while the tracing counter is positive, with frames
    staged, and to a guid other than "localUtils". When the envelope was
    not written (the parameters do not encode, no transport is attached,
    or the transport refused the envelope), with the counter at zero or
    below, with no frames staged, or for "localUtils", nothing is
    forwarded; otherwise the frames follow the envelope, under the
    envelope's id, and nothing else is forwarded. *)
Theorem stack_forwarded_when_tracing h guid method params flag now c :
  let c' := state_of (sendMessageToServer h guid method params flag now c) in
  let written := ∃ wire send,
    replaceChannelsWithGuids h params = Some wire ∧ onmessage c = Some send
    ∧ send (envelope_of guid method wire now c) = None in
  ((¬ written ∨ tracingCount c ≤ 0 ∨ staged_frames c = [] ∨ guid = "localUtils") →
     forwarded (trace c') = forwarded (trace c))
  ∧ (∀ wire send,
       replaceChannelsWithGuids h params = Some wire → onmessage c = Some send →
       send (envelope_of guid method wire now c) = None →
       0 < tracingCount c → staged_frames c ≠ [] → guid ≠ "localUtils" →
       trace c' = trace c ++ [CallOnMessage (envelope_of guid method wire now c);
                              CallAddStackToTracingNoReply (wrap_int (lastID c + 1))
                                                           (staged_frames c)]
       ∧ forwarded (trace c')
         = forwarded (trace c) ++ [(wrap_int (lastID c + 1), staged_frames c)]).
Proof.
  split.
  - intros Hoff.
    destruct (replaceChannelsWithGuids h params) as [wire|] eqn:Hwire.
    2:{ unfold sendMessageToServer, apiZone_LoadAndDelete. run.
        destruct (apiZone c); run; by rewrite Hwire. }
    destruct (onmessage c) as [send|] eqn:Hsend.
    2:{ destruct (no_transport h guid method params flag now c Hsend) as (_ & Htr & _).
        simpl in Htr. by rewrite Htr. }
    rewrite (sendMessageToServer_run _ _ _ _ _ _ _ _ _ Hwire Hsend).
    destruct (send _) eqn:Hwrite; simpl.
    { rewrite forwarded_app. simpl. by rewrite app_nil_r. }
    rewrite decide_False; simpl.
    { rewrite forwarded_app. simpl. by rewrite app_nil_r. }
    intros (Hpos & Hlen & Hguid).
    destruct Hoff as [Hnot|[?|[Hnil|?]]]; [|lia| |done].
    + apply Hnot. by exists wire, send.
    + rewrite Hnil in Hlen. simpl in Hlen. lia.
  - intros wire send Hwire Hsend Hok Hpos Hfr Hguid.
    rewrite (sendMessageToServer_run _ _ _ _ _ _ _ _ _ Hwire Hsend), Hok. simpl.
    rewrite decide_True; simpl.
    { rewrite <-app_assoc. split; [done|]. by rewrite forwarded_app. }
    split; [done|]. split; [|done].
    destruct (staged_frames c); [done|simpl; lia].
Qed.

Lemma wrap_int32_add a b : wrap_int32 (wrap_int32 a + b) = wrap_int32 (a + b).
Proof.
  unfold wrap_int32. f_equal.
  replace (((a + 2 ^ 31) mod 2 ^ 32 - 2 ^ 31) + b + 2 ^ 31)
    with ((a + 2 ^ 31) mod 2 ^ 32 + b) by lia.
  rewrite Zplus_mod_idemp_l. f_equal. lia.
Qed.

Lemma wrap_int32_small a : - 2 ^ 31 ≤ a → a < 2 ^ 31 → wrap_int32 a = a.
Proof. intros Hl Hu. unfold wrap_int32. rewrite Z.mod_small; lia. Qed.

Lemma wrap_int32_range a : - 2 ^ 31 ≤ wrap_int32 a ∧ wrap_int32 a < 2 ^ 31.
Proof.
  unfold wrap_int32. pose proof (Z.mod_pos_bound (a + 2 ^ 31) (2 ^ 32)). lia.
Qed.

Lemma set_tracingCount_same c : set_tracingCount (tracingCount c) c = c.
Proof. by destruct c. Qed.

Lemma setInTracing_step b c :
  state_of (setInTracing b c)
  = set_tracingCount (wrap_int32 (tracingCount c + (if b then 1 else -1))) c.
Proof. unfold setInTracing. run. by destruct b. Qed.

Lemma setInTracing_all_spec bs : ∀ c,
  - 2 ^ 31 ≤ tracingCount c → tracingCount c < 2 ^ 31 →
  setInTracing_all bs c = set_tracingCount (wrap_int32 (tracingCount c + balance bs)) c.
Proof.
  induction bs as [|b bs IH]; intros c Hl Hu; simpl.
  - by rewrite Z.add_0_r, wrap_int32_small, set_tracingCount_same.
  - unfold setInTracing_all in *. simpl. rewrite setInTracing_step.
    rewrite IH; simpl; [|apply wrap_int32_range..].
    unfold set_tracingCount. simpl. f_equal. rewrite wrap_int32_add. f_equal. lia.
Qed.

(** X14. The tracing counter is the number of [setInTracing(true)] minus
    the number of [setInTracing(false)], in 32 bits, and nothing else of
    the connection changes: calls that balance leave the connection as
    it was, in any order, and while more sessions were begun than ended
    the counter is positive. *)
Theorem tracing_sessions_counted bs c :
  - 2 ^ 31 ≤ tracingCount c → tracingCount c < 2 ^ 31 →
  setInTracing_all bs c = set_tracingCount (wrap_int32 (tracingCount c + balance bs)) c
  ∧ (balance bs = 0 → setInTracing_all bs c = c)
  ∧ (0 ≤ tracingCount c → 0 < balance bs → tracingCount c + balance bs < 2 ^ 31 →
     0 < tracingCount (setInTracing_all bs c)).
Proof.
  intros Hl Hu. rewrite (setInTracing_all_spec bs c Hl Hu).
  split; [done|]. split.
  - intros ->. by rewrite Z.add_0_r, wrap_int32_small, set_tracingCount_same.
  - intros H0 Hpos Hfit. simpl. rewrite wrap_int32_small; lia.
Qed.

Section Staging.
Context `{Externals}.

(** X15. [WrapAPICall] never clears the metadata it staged: when its
    closure returns without sending, the metadata stays in the slot, and
    the next call that does send, wrapped with whatever flag, carries
    that older metadata in its envelope and not a fresh capture. *)
Theorem closure_without_send_leaves_metadata {A} (cb : M A) isInternal c :
  (∀ c0, apiZone (state_of (cb c0)) = apiZone c0) →
  let c1 := state_of (WrapAPICall cb isInternal c) in
  apiZone c1 = Some (default (serializeCallStack isInternal) (apiZone c))
  ∧ ∀ h guid method params flag now later out c2,
      WrapAPICall (sendMessageToServer h guid method params flag now) later c1
        = Done out c2 →
      ∃ e, sent (trace c2) = sent (trace c1) ++ [e]
         ∧ env_metadata e
           = <["wallTime" := VInt now]>
               (metadata (default (serializeCallStack isInternal) (apiZone c))).
Proof.
  intros Hcb. simpl.
  assert (apiZone (state_of (WrapAPICall cb isInternal c))
          = Some (default (serializeCallStack isInternal) (apiZone c))) as Hz.
  { rewrite WrapAPICall_staged, Hcb. apply staged_apiZone. }
  split; [done|].
  intros h guid method params flag now later out c2 Hrun.
  rewrite WrapAPICall_staged in Hrun.
  destruct (sendMessageToServer_Done _ _ _ _ _ _ _ _ _ Hrun)
    as (wire & send & _ & _ & Hsent & _).
  eexists. split.
  - rewrite Hsent. by rewrite (proj1 (staged_fields later _)).
  - simpl. rewrite staged_apiZone, Hz. done.
Qed.
End Staging.

Lemma write_failure_witness :
  let broken := set_callbacks ∅
    {| apiZone := None; objects := ∅; lastID := 4; callbacks := ∅; afterClose := false;
       onClose := None; onmessage := Some (λ _, Some (ErrNew "broken pipe"));
       tracingCount := 1; abort := false; trace := [] |} in
  let out := sendMessageToServer page_heap "page@1" "click" (VChan 7%positive) false 9
               broken in
  out = Done (None, Some (ErrWrap "could not send message" (ErrNew "broken pipe")))
          (state_of out)
  ∧ is_Some (callbacks (state_of out) !! 5).
Proof.
  intros broken out.
  destruct (write_failure page_heap "page@1" "click" (VChan 7%positive) false 9 broken
              (VStrMap {[ "guid" := "page@1" ]}) (λ _, Some (ErrNew "broken pipe"))
              (ErrNew "broken pipe") ltac:(by vm_compute) eq_refl eq_refl)
    as (Hout & _ & _ & Hcb & _).
  split; [exact Hout|exact Hcb].
Defined.

Lemma no_transport_panics_witness :
  let out := sendMessageToServer page_heap "page@1" "click" VNil false 9
               (newConnection None) in
  onmessage (newConnection None) = None
  ∧ out = Panic (state_of out)
  ∧ lastID (state_of out) = 1.
Proof.
  intros out.
  destruct (no_transport_panics page_heap "page@1" "click" VNil false 9
              (newConnection None) eq_refl) as (Hout & _ & Hid & _).
  split; [reflexivity|]. split; [exact Hout|exact Hid].
Defined.

Lemma stack_forwarded_when_tracing_witness :
  let off := set_tracingCount 0 (staged (H := plain_externals) false live) in
  let on := set_tracingCount 1 (staged (H := plain_externals) false live) in
  let broken :=
    {| apiZone := Some (serializeCallStack (Externals := plain_externals) false);
       objects := ∅; lastID := 4; callbacks := ∅; afterClose := false; onClose := None;
       onmessage := Some (λ _, Some (ErrNew "broken pipe"));
       tracingCount := 1; abort := false; trace := [] |} in
  let after c := state_of (sendMessageToServer page_heap "page@1" "click" VNil false 9 c) in
  (tracingCount off ≤ 0 ∧ forwarded (trace (after off)) = forwarded (trace off))
  ∧ (0 < tracingCount broken ∧ staged_frames broken ≠ []
     ∧ forwarded (trace (after broken)) = forwarded (trace broken))
  ∧ (0 < tracingCount on ∧ staged_frames on ≠ []
     ∧ trace (after on)
       = trace on ++ [CallOnMessage (envelope_of "page@1" "click" VNil 9 on);
                      CallAddStackToTracingNoReply (wrap_int (lastID on + 1))
                                                   (staged_frames on)]).
Proof.
  intros off on broken after.
  assert (tracingCount off ≤ 0) as Hoff by (simpl; lia).
  assert (0 < tracingCount on) as Hon by (simpl; lia).
  assert (staged_frames on ≠ []) as Hfr by done.
  split; [|split].
  - split; [exact Hoff|].
    destruct (stack_forwarded_when_tracing page_heap "page@1" "click" VNil false 9 off)
      as [Hnone _].
    apply Hnone. right. left. exact Hoff.
  - split; [simpl; lia|]. split; [done|].
    destruct (stack_forwarded_when_tracing page_heap "page@1" "click" VNil false 9 broken)
      as [Hnone _].
    apply Hnone. left. intros (wire & send & _ & Hsend & Hwrite).
    injection Hsend as <-. discriminate Hwrite.
  - split; [exact Hon|]. split; [exact Hfr|].
    destruct (stack_forwarded_when_tracing page_heap "page@1" "click" VNil false 9 on)
      as [_ Hsome].
    destruct (Hsome VNil pipe eq_refl eq_refl eq_refl Hon Hfr ltac:(done)) as [Htrace _].
    exact Htrace.
Defined.

Lemma tracing_sessions_counted_witness :
  let bs := [true; true; false; true; false; false] in
  balance bs = 0
  ∧ setInTracing_all bs live = live.
Proof.
  intros bs.
  assert (balance bs = 0) as Hbal by reflexivity.
  split; [exact Hbal|].
  destruct (tracing_sessions_counted bs live ltac:(by vm_compute) ltac:(by vm_compute))
    as (_ & Hback & _).
  apply (Hback Hbal).
Defined.

Lemma closure_without_send_leaves_metadata_witness :
  let idle : M unit := mret tt in
  let c1 := state_of (WrapAPICall (H := plain_externals) idle true live) in
  (∀ c0, apiZone (state_of (idle c0)) = apiZone c0)
  ∧ apiZone c1 = Some (serializeCallStack (Externals := plain_externals) true).
Proof.
  intros idle c1.
  assert (∀ c0, apiZone (state_of (idle c0)) = apiZone c0) as Hidle by (intros c0; done).
  split; [exact Hidle|].
  destruct (closure_without_send_leaves_metadata (H := plain_externals) idle true live Hidle)
    as [Hz _].
  exact Hz.
Defined.

(** ** The abort channel over the life of a connection *)

Lemma send_keeps_abort h guid method params noReply now c :
  let c' := state_of (sendMessageToServer h guid method params noReply now c) in
  abort c' = abort c ∧ closes (trace c') = closes (trace c).
Proof.
  unfold sendMessageToServer, callbacks_LoadOrStore, apiZone_LoadAndDelete.
  destruct (apiZone c) as [z|] eqn:Hz;
  destruct (replaceChannelsWithGuids h params) as [wire|] eqn:Hwire;
  run; rewrite ?Hz, ?Hwire; run; try done;
  (destruct (callbacks c !! wrap_int (lastID c + 1)) as [pc|] eqn:Hpc; run;
   destruct (onmessage c) as [send|] eqn:Hsend; run; try done;
   repeat (case_match; run; simplify_eq; try done)).
  all: split; [done|count_closes].
Qed.

Lemma stop_closes_once c :
  let c' := state_of (Stop c) in
  (abort c = true → abort c' = true ∧ closes (trace c') = closes (trace c))
  ∧ (abort c = false →
     (abort c' = false ∧ closes (trace c') = closes (trace c))
     ∨ (abort c' = true ∧ closes (trace c') = S (closes (trace c)))).
Proof.
  unfold Stop, cleanup. run.
  destruct (onClose c); run;
    [|destruct (afterClose c); run; destruct (abort c) eqn:Hab; run; rewrite ?Hab].
  all: split; intros Hx; try done.
  all: try (split; [done|count_closes]).
  all: try (left; split; [done|count_closes]).
  all: try (right; split; [done|count_closes]).
Qed.

Section Life.
Context `{Externals}.

Lemma dispatch_keeps_abort msg c :
  let c' := state_of (Dispatch msg c) in
  abort c' = abort c ∧ closes (trace c') = closes (trace c).
Proof.
  unfold Dispatch, callbacks_LoadAndDelete, createRemoteObject, SetResult.
  destruct (decide (ID msg ≠ 0)) as [Hid|Hid]; run.
  - destruct (callbacks c !! ID msg) as [pc|]; run; [|done].
    destruct (noReply pc); run; [done|].
    destruct (MsgError msg); run; [split; [done|count_closes]|].
    destruct (replaceGuidsWithChannels (objects c) (Result msg)); run; [|done].
    split; [done|count_closes].
  - repeat (case_match; run; simplify_eq; try done).
    all: split; [done|count_closes].
Qed.

Lemma staged_keeps_abort isInternal c :
  abort (staged isInternal c) = abort c ∧ trace (staged isInternal c) = trace c.
Proof. unfold staged. by destruct (apiZone c). Qed.

Lemma act_closed_once a c :
  closed_once c → closed_once (act a c) ∧ (abort c = true → abort (act a c) = true).
Proof.
  intros Hinv. destruct a as [k|k i|msg| |b]; simpl.
  - destruct (send_keeps_abort (call_heap k) (call_guid k) (call_method k)
                (call_params k) (call_noReply k) (call_now k) c) as [Ha Hc].
    unfold do_call, closed_once in *. simpl in *. rewrite Ha, Hc. auto.
  - rewrite WrapAPICall_staged.
    destruct (send_keeps_abort (call_heap k) (call_guid k) (call_method k)
                (call_params k) (call_noReply k) (call_now k) (staged i c)) as [Ha Hc].
    destruct (staged_keeps_abort i c) as [Hsa Hst].
    unfold do_call, closed_once in *. simpl in *. rewrite Ha, Hc, Hsa, Hst. auto.
  - destruct (dispatch_keeps_abort msg c) as [Ha Hc].
    unfold closed_once in *. simpl in *. rewrite Ha, Hc. auto.
  - destruct (stop_closes_once c) as [Hclosed Hopen].
    unfold closed_once in *. simpl in *.
    destruct Hinv as [[Hab Hc]|[Hab Hc]].
    + destruct (Hopen Hab) as [[Ha' Hc']|[Ha' Hc']]; rewrite Ha', Hc', Hc; split; auto;
        intros ?; congruence.
    + destruct (Hclosed Hab) as [Ha' Hc']. rewrite Ha', Hc', Hc. auto.
  - unfold setInTracing. run. by destruct b.
Qed.

Lemma run_closed_once acts : ∀ c,
  closed_once c →
  closed_once (run acts c) ∧ (abort c = true → abort (run acts c) = true).
Proof.
  induction acts as [|a acts IH]; intros c Hinv; [done|].
  simpl. destruct (act_closed_once a c Hinv) as [Hinv' Hmono].
  destruct (IH (act a c) Hinv') as [Hinv'' Hmono']. auto.
Qed.

(** X16. Over any sequence of sends, wrapped sends, dispatches, calls to
    [Stop] and to [setInTracing] on a connection that starts with its
    abort channel open, the abort channel is closed at most once (a
    second [close] would panic), it is closed exactly when the state says
    so, and once closed it stays closed whatever follows. *)
Theorem abort_closed_at_most_once acts c :
  abort c = false → closes (trace c) = 0%nat →
  (closes (trace (run acts c)) ≤ 1)%nat
  ∧ (abort (run acts c) = true ↔ closes (trace (run acts c)) = 1%nat)
  ∧ ∀ more, abort (run acts c) = true → abort (run (acts ++ more) c) = true.
Proof.
  intros Hab Hc.
  assert (closed_once c) as Hinv by (left; done).
  destruct (run_closed_once acts c Hinv) as [[[Ha Hn]|[Ha Hn]] _].
  - split; [lia|]. split; [split; intros ?; [congruence|lia]|].
    intros more Habs. congruence.
  - split; [lia|]. split; [done|].
    intros more _. unfold run. rewrite foldl_app.
    apply (run_closed_once more (run acts c)); [right; done|done].
Qed.
End Life.

(** X17. A second [Stop] is no no-op: after a [Stop] whose hook
    succeeded, [Stop] calls [onClose] again, and [afterClose] again when
    it is set, and returns nil; it does not close the abort channel
    again. [Stop] removes nothing from the callback table or the object
    directory. *)
Theorem Stop_again c :
  onClose c = None →
  let c1 := state_of (Stop c) in
  Stop c1 = Done None (set_trace (trace c1 ++ CallOnClose ::
                                    (if afterClose c then [CallAfterClose] else [])) c1)
  ∧ callbacks c1 = callbacks c ∧ objects c1 = objects c.
Proof.
  intros Hok. destruct c as [z o l cbs af oc om tc ab t]. simpl in Hok. subst oc.
  destruct af, ab; unfold Stop, cleanup; run; rewrite <-?app_assoc; done.
Qed.

Lemma abort_closed_at_most_once_witness :
  let acts := [ ActWrappedSend {| call_heap := page_heap; call_guid := "page@1";
                                  call_method := "close"; call_params := VNil;
                                  call_noReply := false; call_now := 1 |} false;
                ActStop;
                ActDispatch {| ID := 1; GUID := EmptyString; Method := EmptyString;
                               Params := ∅; Result := VNil; MsgError := None |};
                ActStop; ActTracing true; ActStop ] in
  abort live = false
  ∧ closes (trace (run (H := plain_externals) acts live)) = 1%nat
  ∧ abort (run (H := plain_externals) acts live) = true.
Proof.
  intros acts.
  destruct (abort_closed_at_most_once (H := plain_externals) acts live eq_refl eq_refl)
    as (_ & Hiff & _).
  assert (abort (run (H := plain_externals) acts live) = true) as Hab
    by (vm_compute; reflexivity).
  split; [reflexivity|]. split; [apply (proj1 Hiff Hab)|exact Hab].
Defined.

Lemma Stop_again_witness :
  let c1 := state_of (Stop live) in
  onClose live = None
  ∧ Stop c1 = Done None (set_trace (trace c1 ++ [CallOnClose; CallAfterClose]) c1).
Proof.
  intros c1. split; [reflexivity|].
  destruct (Stop_again live eq_refl) as [Hstop _]. exact Hstop.
Defined.

(** ** What [innerSend] returns *)

Section Returns.
Context `{Externals}.

Lemma innerSend_send_error h ch method returnAsDict options now w pick c cb e c1 :
  sendMessageToServer h (chan_guid ch) method (transformOptions options) false now c
    = Done (cb, Some e) c1 →
  innerSend h ch method returnAsDict options now w pick c = Done (VNil, Some e) c1.
Proof.
  intros Hsend. unfold innerSend.
  unfold mbind at 1, M_bind at 1. by rewrite Hsend.
Qed.

Lemma innerSend_result_error h ch method returnAsDict options now w pick c cb c1 d e :
  sendMessageToServer h (chan_guid ch) method (transformOptions options) false now c
    = Done (Some cb, None) c1 →
  GetResult cb w = (d, Some e) →
  innerSend h ch method returnAsDict options now w pick c = Done (VNil, Some e) c1.
Proof.
  intros Hsend Hget. unfold innerSend.
  unfold mbind at 1, M_bind at 1. rewrite Hsend. run. by rewrite Hget.
Qed.

(** X18. [innerSend] never returns a value together with an error. A
    write error comes back at once, whatever the channels hold; when the
    abort channel wakes the caller it gets "Connection closed"; when a
    result with an error is received it gets that error, and the data
    that came with it is dropped. *)
Theorem innerSend_failures h ch method returnAsDict options now pick c :
  (∀ w v e c', innerSend h ch method returnAsDict options now w pick c = Done (v, Some e) c' →
               v = VNil)
  ∧ (∀ cb e c1,
       sendMessageToServer h (chan_guid ch) method (transformOptions options) false now c
         = Done (cb, Some e) c1 →
       ∀ w, innerSend h ch method returnAsDict options now w pick c
            = Done (VNil, Some e) c1)
  ∧ (∀ cb c1,
       sendMessageToServer h (chan_guid ch) method (transformOptions options) false now c
         = Done (Some cb, None) c1 →
       noReply cb = false →
       innerSend h ch method returnAsDict options now Aborted pick c
         = Done (VNil, Some (ErrNew "Connection closed")) c1
       ∧ ∀ d e, innerSend h ch method returnAsDict options now
                  (Received {| Data := d; Error := Some e |}) pick c
                = Done (VNil, Some e) c1).
Proof.
  split; [|split].
  - intros w v e c' Hrun.
    destruct (sendMessageToServer h (chan_guid ch) method (transformOptions options) false
                now c) as [[cb err] c1|c1] eqn:Hsend.
    2:{ unfold innerSend in Hrun. unfold mbind at 1, M_bind at 1 in Hrun.
        by rewrite Hsend in Hrun. }
    destruct err as [err|].
    { rewrite (innerSend_send_error _ _ _ _ _ _ _ _ _ _ _ _ Hsend) in Hrun. by simplify_eq. }
    destruct cb as [cb|].
    2:{ unfold innerSend in Hrun. unfold mbind at 1, M_bind at 1 in Hrun.
        rewrite Hsend in Hrun. by run. }
    destruct (GetResult cb w) as [d [err|]] eqn:Hget.
    { rewrite (innerSend_result_error _ _ _ _ _ _ _ _ _ _ _ _ _ Hsend Hget) in Hrun.
      by simplify_eq. }
    rewrite (innerSend_Done _ _ _ _ _ _ _ _ _ _ _ _ Hsend Hget) in Hrun.
    repeat (case_match; simplify_eq; try done).
  - intros cb e c1 Hsend w. by apply (innerSend_send_error _ _ _ _ _ _ _ _ _ cb).
  - intros cb c1 Hsend Hreply. split.
    + apply (innerSend_result_error _ _ _ _ _ _ _ _ _ cb _ VNil); [done|].
      unfold GetResult. by rewrite Hreply.
    + intros d e. apply (innerSend_result_error _ _ _ _ _ _ _ _ _ cb _ d); [done|].
      unfold GetResult. by rewrite Hreply.
Qed.

Lemma range_first_elem m pick :
  m ≠ ∅ → ∃ k v, m !! k = Some v ∧ range_first m pick = Some v.
Proof.
  intros Hne. unfold range_first.
  assert (0 < length (map_to_list m))%nat as Hlen.
  { destruct (map_to_list m) eqn:Hl; [|simpl; lia].
    by apply map_to_list_empty_iff in Hl. }
  destruct (lookup_lt_is_Some_2 (map_to_list m) (pick `mod` length (map_to_list m))%nat)
    as [[k v] Hkv].
  { apply Nat.mod_upper_bound. lia. }
  exists k, v. rewrite Hkv. split; [|done].
  apply elem_of_map_to_list, list_elem_of_lookup. eauto.
Qed.

(** X19. On the path that unwraps ([returnAsDict] false), a result that
    is a mapping with entries comes back as the value of one of its
    entries, whichever the map iteration meets first, so with several
    entries the others are lost; a result of any other kind (a string, a
    number, a sequence, a channel) comes back as it is. *)
Theorem innerSend_returns_an_entry h ch method options now w pick c cb c1 result :
  sendMessageToServer h (chan_guid ch) method (transformOptions options) false now c
    = Done (Some cb, None) c1 →
  GetResult cb w = (result, None) →
  (∀ m, result = VMap m → m ≠ ∅ →
     ∃ k v, m !! k = Some v
          ∧ innerSend h ch method false options now w pick c = Done (v, None) c1)
  ∧ ((∀ m, result ≠ VMap m) → (∀ m, result ≠ VStrMap m) →
     innerSend h ch method false options now w pick c = Done (result, None) c1).
Proof.
  intros Hsend Hget. rewrite (innerSend_Done _ _ _ _ _ _ _ _ _ _ _ _ Hsend Hget).
  split.
  - intros m -> Hne.
    destruct (range_first_elem m pick Hne) as (k & v & Hk & Hfirst).
    exists k, v. split; [done|].
    rewrite decide_False, Hfirst; [done|].
    intros Hsize. by apply map_size_empty_iff in Hsize.
  - intros Hm Hs. destruct result; try done.
    + by destruct (Hm m).
    + by destruct (Hs m).
Qed.
End Returns.

Lemma innerSend_failures_witness :
  let page := {| chan_guid := "page@1" |} in
  let sent_on := sendMessageToServer page_heap "page@1" "title"
                   (transformOptions (Externals := plain_externals) []) false 0 live in
  sent_on = Done (Some {| noReply := false |}, None) (state_of sent_on)
  ∧ innerSend (H := plain_externals) page_heap page "title" false [] 0 Aborted 0 live
    = Done (VNil, Some (ErrNew "Connection closed")) (state_of sent_on).
Proof.
  intros page sent_on.
  assert (sent_on = Done (Some {| noReply := false |}, None) (state_of sent_on)) as Hsent
    by (vm_compute; reflexivity).
  split; [exact Hsent|].
  destruct (innerSend_failures (H := plain_externals) page_heap page "title" false [] 0
              0%nat live) as (_ & _ & Hwake).
  destruct (Hwake _ _ Hsent eq_refl) as [Hclosed _]. exact Hclosed.
Defined.

Lemma innerSend_returns_an_entry_witness :
  let page := {| chan_guid := "page@1" |} in
  let reply := Received {| Data := VList [VInt 1; VInt 2]; Error := None |} in
  let sent_on := sendMessageToServer page_heap "page@1" "sizes"
                   (transformOptions (Externals := plain_externals) []) false 0 live in
  sent_on = Done (Some {| noReply := false |}, None) (state_of sent_on)
  ∧ innerSend (H := plain_externals) page_heap page "sizes" false [] 0 reply 0 live
    = Done (VList [VInt 1; VInt 2], None) (state_of sent_on).
Proof.
  intros page reply sent_on.
  assert (sent_on = Done (Some {| noReply := false |}, None) (state_of sent_on)) as Hsent
    by (vm_compute; reflexivity).
  split; [exact Hsent|].
  destruct (innerSend_returns_an_entry (H := plain_externals) page_heap page "sizes" [] 0
              reply 0%nat live _ _ (VList [VInt 1; VInt 2]) Hsent eq_refl) as [_ Hplain].
  apply Hplain; intros m; discriminate.
Defined.

(** ** Selector escaping *)

Lemma escaped_body_cons a v :
  escaped_body (a :: v) =
    if decide (a = backslash) then backslash :: backslash :: escaped_body v
    else if decide (a = quote) then backslash :: quote :: escaped_body v
    else a :: escaped_body v.
Proof.
  unfold escaped_body. simpl.
  destruct (decide (a = backslash)) as [->|Hb]; simpl.
  - done.
  - destruct (decide (a = quote)) as [->|Hq]; done.
Qed.

Lemma unescape_escaped_body v : unescape_from false (escaped_body v) = v.
Proof.
  induction v as [|a v IH]; [done|].
  rewrite escaped_body_cons.
  destruct (decide (a = backslash)) as [->|Hb]; simpl.
  { by rewrite IH. }
  destruct (decide (a = quote)) as [->|Hq]; simpl.
  { by rewrite IH. }
  rewrite decide_False by done. by rewrite IH.
Qed.

Lemma bare_quotes_escaped_body v : bare_quotes false (escaped_body v) = 0%nat.
Proof.
  induction v as [|a v IH]; [done|].
  rewrite escaped_body_cons.
  destruct (decide (a = backslash)) as [->|Hb]; simpl.
  { done. }
  destruct (decide (a = quote)) as [->|Hq]; simpl.
  { done. }
  by rewrite !decide_False by done.
Qed.

Lemma escaped_body_length v :
  length (escaped_body v)
  = (length v + length (filter (λ a, a = backslash ∨ a = quote) v))%nat.
Proof.
  induction v as [|a v IH]; [done|].
  rewrite escaped_body_cons.
  destruct (decide (a = backslash)) as [->|Hb].
  { rewrite filter_cons_True by auto. simpl. lia. }
  destruct (decide (a = quote)) as [->|Hq].
  { rewrite filter_cons_True by auto. simpl. lia. }
  rewrite filter_cons_False by (intros [?|?]; done). simpl. lia.
Qed.

(** X20. [escapeForAttributeSelector] returns a quoted body followed by
    the flag, "s" for exact and "i" otherwise. In the body no quote
    stands unescaped, so the quoted string ends where it should; a
    reader that takes a backslash to make the next byte literal reads
    the given value back, whatever backslashes and quotes it holds; and
    the body is longer than the value by one byte for each of them. *)
Theorem escape_reads_back value exact :
  ∃ body suffix,
    escapeForAttributeSelector value exact = [quote] ++ body ++ [quote; suffix]
    ∧ suffix = (if exact then "s"%char else "i"%char)
    ∧ bare_quotes false body = 0%nat
    ∧ unescape_from false body = value
    ∧ length body
      = (length value + length (filter (λ a, a = backslash ∨ a = quote) value))%nat.
Proof.
  exists (escaped_body value), (if exact then "s"%char else "i"%char).
  split; [done|]. split; [done|].
  split; [apply bare_quotes_escaped_body|].
  split; [apply unescape_escaped_body|apply escaped_body_length].
Qed.

(** X21. [escapeForAttributeSelector] is injective: two selectors it
    returns are equal only for the same value and the same exactness. *)
Theorem escape_injective v1 e1 v2 e2 :
  escapeForAttributeSelector v1 e1 = escapeForAttributeSelector v2 e2 →
  v1 = v2 ∧ e1 = e2.
Proof.
  unfold escapeForAttributeSelector. intros Heq.
  injection Heq as Heq.
  change (escaped_body v1 ++ [quote; if e1 then "s"%char else "i"%char]
          = escaped_body v2 ++ [quote; if e2 then "s"%char else "i"%char]) in Heq.
  apply app_inj_2 in Heq as [Hbody Htail]; [|done].
  split.
  - by rewrite <-(unescape_escaped_body v1), Hbody, unescape_escaped_body.
  - destruct e1, e2; done.
Qed.

Lemma escape_injective_witness :
  let v := [quote; "a"%char; backslash] in
  escapeForAttributeSelector v true
    = [quote; backslash; quote; "a"%char; backslash; backslash; quote; "s"%char]
  ∧ (v = v ∧ true = true).
Proof.
  intros v. split; [reflexivity|].
  apply (escape_injective v true v true). reflexivity.
Defined.

(** ** The browser proxy *)

(** X22. [browserImpl.onClose] marks the browser closed and not
    connected, and emits "disconnected" only when the browser was
    connected; called again it emits nothing and changes nothing, so the
    event is emitted at most once. *)
Theorem browser_disconnects_once b :
  let '(b1, first) := browser_onClose b in
  let '(b2, second) := browser_onClose b1 in
  isConnected b1 = false ∧ isClosedOrClosing b1 = true
  ∧ first = (if isConnected b then ["disconnected"] else [])
  ∧ second = [] ∧ b2 = b1.
Proof.
  unfold browser_onClose. destruct b as [ch [] cl sh]; simpl; done.
Qed.

Section Browser.
Context `{Externals}.
Variable isSafeCloseError : error → bool.

(** X23. [browserImpl.Close] sends "close" at most once: a [Close] that
    returned, with an error or without, leaves the browser marked as
    closing, and every later [Close] returns nil without sending or
    stopping anything. *)
Theorem browser_Close_sends_once h b now w pick c err b1 c1 :
  browser_Close isSafeCloseError h b now w pick c = Done (err, b1) c1 →
  isClosedOrClosing b1 = true
  ∧ ∀ h' now' w' pick',
      browser_Close isSafeCloseError h' b1 now' w' pick' c1 = Done (None, b1) c1.
Proof.
  intros Hrun.
  assert (isClosedOrClosing b1 = true) as Hflag.
  { unfold browser_Close in Hrun.
    destruct (isClosedOrClosing b) eqn:Hb; run; [by simplify_eq|].
    destruct (Send h _ "close" [] now w pick c) as [[v e] c'|c'] eqn:Hsend; run; [|done].
    destruct e as [e|]; run;
      repeat (case_match; run; simplify_eq; try done). }
  split; [done|].
  intros h' now' w' pick'. unfold browser_Close. by rewrite Hflag.
Qed.

(** X24. When the "close" call fails with an error that is not a safe
    close error, [Close] returns it wrapped as "close browser failed"
    and does not stop the connection, also when the browser is set to
    close the connection on close: the connection is as the call left
    it. *)
Theorem browser_Close_failure_keeps_connection h b now w pick c v e c1 :
  isClosedOrClosing b = false →
  Send h (browser_channel b) "close" [] now w pick c = Done (v, Some e) c1 →
  isSafeCloseError e = false →
  browser_Close isSafeCloseError h b now w pick c
    = Done (Some (ErrWrap "close browser failed" e), set_isClosedOrClosing true b) c1.
Proof.
  intros Hb Hsend Hsafe. unfold browser_Close. rewrite Hb.
  unfold mbind at 1, M_bind at 1. simpl. rewrite Hsend. run. by rewrite Hsafe.
Qed.

(** X25. On a browser set to close the connection on close, when the
    "close" call returns without an error or with a safe close error,
    and the shutdown hook succeeds, [Close] returns nil with the abort
    channel closed: a safe close error is swallowed, and the callers
    still waiting on the connection are released. *)
Theorem browser_Close_stops_connection h b now w pick c v err c1 :
  isClosedOrClosing b = false → shouldCloseConnectionOnClose b = true →
  Send h (browser_channel b) "close" [] now w pick c = Done (v, err) c1 →
  (∀ e, err = Some e → isSafeCloseError e = true) →
  onClose c1 = None →
  ∃ c2, browser_Close isSafeCloseError h b now w pick c
          = Done (None, set_isClosedOrClosing true b) c2
      ∧ abort c2 = true.
Proof.
  intros Hb Hshould Hsend Hsafe Hok. unfold browser_Close. rewrite Hb.
  unfold mbind at 1, M_bind at 1. simpl. rewrite Hsend. simpl.
  assert (∃ c2, (err ← Stop; mret (err, set_isClosedOrClosing true b)) c1
                  = Done (None, set_isClosedOrClosing true b) c2
              ∧ abort c2 = true) as Hstopped.
  { pose proof (Stop_ok c1 Hok) as Hab.
    unfold mbind, M_bind. destruct (Stop c1) as [r c2|c2] eqn:Hstop.
    - exists c2. split; [|done].
      assert (r = None) as ->; [|done].
      unfold Stop, cleanup in Hstop. run. rewrite Hok in Hstop. run.
      repeat (case_match; run; simplify_eq; try done).
    - unfold Stop, cleanup in Hstop. run. rewrite Hok in Hstop. run.
      repeat (case_match; run; simplify_eq; try done). }
  destruct err as [e|].
  - rewrite (Hsafe e eq_refl). simpl. rewrite Hshould. exact Hstopped.
  - rewrite Hshould. exact Hstopped.
Qed.
End Browser.

(** A connected browser that owns its connection, on the page channel. *)
Lemma browser_Close_sends_once_witness :
  let b := {| browser_channel := {| chan_guid := "page@1" |}; isConnected := true;
              isClosedOrClosing := false; shouldCloseConnectionOnClose := true |} in
  let reply := Received {| Data := VNil; Error := None |} in
  let closing := browser_Close (H := plain_externals) (λ _, false) page_heap b 3 reply 0
                   live in
  closing = Done (None, set_isClosedOrClosing true b) (state_of closing)
  ∧ browser_Close (H := plain_externals) (λ _, false) page_heap
      (set_isClosedOrClosing true b) 4 reply 0 (state_of closing)
    = Done (None, set_isClosedOrClosing true b) (state_of closing).
Proof.
  intros b reply closing.
  assert (closing = Done (None, set_isClosedOrClosing true b) (state_of closing))
    as Hclose by (vm_compute; reflexivity).
  split; [exact Hclose|].
  destruct (browser_Close_sends_once (H := plain_externals) (λ _, false) page_heap b 3
              reply 0%nat live _ _ _ Hclose) as [_ Hagain].
  apply Hagain.
Defined.

Lemma browser_Close_failure_keeps_connection_witness :
  let b := {| browser_channel := {| chan_guid := "page@1" |}; isConnected := true;
              isClosedOrClosing := false; shouldCloseConnectionOnClose := true |} in
  let sending := Send (H := plain_externals) page_heap (browser_channel b) "close" [] 3
                   Aborted 0 live in
  sending = Done (VNil, Some (ErrNew "Connection closed")) (state_of sending)
  ∧ browser_Close (H := plain_externals) (λ _, false) page_heap b 3 Aborted 0 live
    = Done (Some (ErrWrap "close browser failed" (ErrNew "Connection closed")),
            set_isClosedOrClosing true b) (state_of sending).
Proof.
  intros b sending.
  assert (sending = Done (VNil, Some (ErrNew "Connection closed")) (state_of sending))
    as Hsend by (vm_compute; reflexivity).
  split; [exact Hsend|].
  apply (browser_Close_failure_keeps_connection (H := plain_externals) (λ _, false)
           page_heap b 3 Aborted 0%nat live VNil _ _ eq_refl Hsend eq_refl).
Defined.

Lemma browser_Close_stops_connection_witness :
  let b := {| browser_channel := {| chan_guid := "page@1" |}; isConnected := true;
              isClosedOrClosing := false; shouldCloseConnectionOnClose := true |} in
  let safe (e : error) := match e with ErrNew "Connection closed" => true | _ => false end in
  let sending := Send (H := plain_externals) page_heap (browser_channel b) "close" [] 3
                   Aborted 0 live in
  sending = Done (VNil, Some (ErrNew "Connection closed")) (state_of sending)
  ∧ ∃ c2, browser_Close (H := plain_externals) safe page_heap b 3 Aborted 0 live
            = Done (None, set_isClosedOrClosing true b) c2
        ∧ abort c2 = true.
Proof.
  intros b safe sending.
  assert (sending = Done (VNil, Some (ErrNew "Connection closed")) (state_of sending))
    as Hsend by (vm_compute; reflexivity).
  split; [exact Hsend|].
  apply (browser_Close_stops_connection (H := plain_externals) safe page_heap b 3
           Aborted 0%nat live VNil _ _ eq_refl eq_refl Hsend).
  - intros e He. injection He as <-. reflexivity.
  - by vm_compute.
Defined.
